(** * glTF-Blender-IO: [io_scene_gltf2/blender/exp/gltf2_blender_image.py]

    A shallow embedding of [ExportImage] and of its two encoders, with the
    Blender objects it reads and writes (image datablocks, the file system,
    the temporary compositor scene) threaded as explicit state.

    Python objects are referred to by identity: an image datablock is an
    [ImageId] into the heap [images] of the [World], and its [name] is one of
    its attributes.  [bpy.data.images[n]] is the lookup [images_by_name]. *)

From Stdlib Require Import String List Bool Arith Lia QArith_base.
From Stdlib.Strings Require Import Byte.
Import ListNotations.
Open Scope string_scope.
Open Scope list_scope.
Open Scope nat_scope.

Set Implicit Arguments.

(** ** Python values *)

Definition bytes := list byte.

Inductive Exn :=
| AssertionError
| IndexError
| KeyError
| AttributeError
| OSError
| RuntimeError.

Inductive Result (A : Type) :=
| Ok (a : A)
| Raise (e : Exn).
Arguments Ok {A} a.
Arguments Raise {A} e.

(** A Python [dict]: keys are unique and kept in insertion order; assigning
    to an existing key keeps its position. *)
Section Dict.
Variables (K V : Type) (eqb : K -> K -> bool).

Definition dict := list (K * V).

Fixpoint dict_get (d : dict) (k : K) : option V :=
  match d with
  | [] => None
  | (k', v) :: d' => if eqb k' k then Some v else dict_get d' k
  end.

Definition dict_mem (d : dict) (k : K) : bool :=
  match dict_get d k with Some _ => true | None => false end.

Fixpoint dict_set (d : dict) (k : K) (v : V) : dict :=
  match d with
  | [] => [(k, v)]
  | (k', v') :: d' =>
      if eqb k' k then (k', v) :: d' else (k', v') :: dict_set d' k v
  end.

Definition dict_get_default (d : dict) (k : K) (dflt : V) : V :=
  match dict_get d k with Some v => v | None => dflt end.

Definition items (d : dict) : list (K * V) := d.
Definition values (d : dict) : list V := map snd d.
Definition keys (d : dict) : list K := map fst d.
End Dict.

(** ** The data model of the module *)

(** [class Channel(enum.IntEnum)]: the members are the integers 0..3, and
    [from_blender_image] uses plain integers as keys. *)
Definition Channel := nat.
Definition R : Channel := 0.
Definition G : Channel := 1.
Definition B : Channel := 2.
Definition A : Channel := 3.

(** A [bpy.types.Image] object, by identity. *)
Definition ImageId := nat.

(** [FillImage] and [FillWhite]. *)
Inductive Fill :=
| FillImage (image : ImageId) (src_chan : Channel)
| FillWhite.

(** The attributes of an image datablock that the module reads or writes. *)
Record Image := mkImage {
  name : string;
  channels : nat;
  size : nat * nat;
  colorspace_settings_name : string;
  is_dirty : bool;
  filepath_raw : string;
  file_format : string
}.

Definition set_colorspace (c : string) (i : Image) : Image :=
  mkImage (name i) (channels i) (size i) c (is_dirty i) (filepath_raw i)
          (file_format i).

Definition set_filepath_raw (p : string) (i : Image) : Image :=
  mkImage (name i) (channels i) (size i) (colorspace_settings_name i)
          (is_dirty i) p (file_format i).

Definition set_file_format (f : string) (i : Image) : Image :=
  mkImage (name i) (channels i) (size i) (colorspace_settings_name i)
          (is_dirty i) (filepath_raw i) f.

(** [ExportImage]: [fills] is set by [__init__]; the attribute [mime_type]
    does not exist until [encode] assigns it ([None] here), after which it
    holds the [Optional[str]] that was passed. *)
Record ExportImage := mkExportImage {
  fills : dict Channel Fill;
  mime_type : option (option string)
}.

(** [ExportImage()] *)
Definition new_ExportImage : ExportImage := mkExportImage [] None.

(** ** Compositor scenes *)

Inductive Node :=
| CompositorNodeComposite
| CompositorNodeCombRGBA (default_value : list Q)
| CompositorNodeImage (image : option ImageId)
| CompositorNodeSepRGBA.

(** [inputs['Image']] / [outputs['Image']], and [inputs[i]] / [outputs[i]]. *)
Inductive Socket :=
| SocketImage
| SocketIndex (i : nat).

(** [node_tree.links.new(input, output)] *)
Record Link := mkLink {
  to_node : nat;
  to_socket : Socket;
  from_node : nat;
  from_socket : Socket
}.

Record Scene := mkScene {
  scene_id : nat;
  use_nodes : bool;
  nodes : list Node;
  links : list Link;
  resolution_x : nat;
  resolution_y : nat;
  resolution_percentage : nat;
  render_file_format : string;      (* render.image_settings.file_format *)
  color_mode : string;              (* render.image_settings.color_mode *)
  display_device : string;          (* display_settings.display_device *)
  dither_intensity : Q;
  use_stamp : list (string * bool); (* the render.use_stamp_* attributes *)
  filepath : string;
  use_file_extension : bool
}.

(** ** The world outside the module *)

Record File := mkFile {
  readable : bool;
  content : bytes
}.

Definition FileSystem := string -> option File.

Record World := mkWorld {
  images : ImageId -> Image;     (* the image datablocks, by identity *)
  data_images : list ImageId;    (* bpy.data.images, in collection order *)
  fs : FileSystem;
  scenes : list nat;             (* bpy.data.scenes, by scene_id *)
  rendered : list Scene          (* the renders requested so far, last first *)
}.

(** What Blender and the operating system decide, and the module does not. *)
Record Host := mkHost {
  (* bpy.path.abspath *)
  abspath : string -> string;
  (* image.save(): the bytes written to image.filepath_raw in the container
     image.file_format, or None when saving raises *)
  image_save : ImageId -> Image -> option bytes;
  (* bpy.ops.render.render(write_still=True): the bytes written to
     scene.render.filepath, or None when rendering raises *)
  render_engine : (ImageId -> Image) -> Scene -> option bytes;
  (* the settings of a scene fresh from bpy.data.scenes.new *)
  new_scene : Scene;
  (* the directory tempfile.TemporaryDirectory() creates *)
  mkdtemp : FileSystem -> string
}.

Definition upd_image (w : World) (i : ImageId) (f : Image -> Image) : World :=
  mkWorld (fun j => if j =? i then f (images w j) else images w j)
          (data_images w) (fs w) (scenes w) (rendered w).

Definition set_fs (w : World) (f : FileSystem) : World :=
  mkWorld (images w) (data_images w) f (scenes w) (rendered w).

Definition set_scenes (w : World) (l : list nat) : World :=
  mkWorld (images w) (data_images w) (fs w) l (rendered w).

Definition log_render (w : World) (s : Scene) : World :=
  mkWorld (images w) (data_images w) (fs w) (scenes w) (s :: rendered w).

(** [bpy.data.images[n]]: the first datablock of the collection named [n]. *)
Definition images_by_name (w : World) (n : string) : option ImageId :=
  find (fun i => String.eqb (name (images w i)) n) (data_images w).

Definition fs_write (f : FileSystem) (p : string) (b : bytes) : FileSystem :=
  fun q => if String.eqb q p then Some (mkFile true b) else f q.

(** Leaving a [with tempfile.TemporaryDirectory()] block removes the
    directory and everything below it. *)
Definition fs_rmtree (f : FileSystem) (d : string) : FileSystem :=
  fun q => if String.prefix (d ++ "/") q then None else f q.

(** [os.path.isfile] *)
Definition isfile (f : FileSystem) (p : string) : bool :=
  match f p with Some _ => true | None => false end.

(** ** State and exceptions *)

Definition M (S X : Type) := S -> Result X * S.

Definition ret {S X} (x : X) : M S X := fun s => (Ok x, s).

Definition raise {S X} (e : Exn) : M S X := fun s => (Raise e, s).

Definition bind {S X Y} (m : M S X) (k : X -> M S Y) : M S Y :=
  fun s =>
    match m s with
    | (Ok x, s') => k x s'
    | (Raise e, s') => (Raise e, s')
    end.

Definition get {S} : M S S := fun s => (Ok s, s).

Definition modify {S} (f : S -> S) : M S unit := fun s => (Ok tt, f s).

(** [try: body finally: fin].  An exception of [fin] replaces the outcome of
    [body]. *)
Definition try_finally {S X} (body : M S X) (fin : M S unit) : M S X :=
  fun s =>
    let (r, s1) := body s in
    match fin s1 with
    | (Ok _, s2) => (r, s2)
    | (Raise e, s2) => (Raise e, s2)
    end.

Declare Scope py_scope.
Delimit Scope py_scope with py.
Notation "x <- m ;; k" := (bind m (fun x => k))
  (at level 100, m at next level, right associativity) : py_scope.
Notation "m ;; k" := (bind m (fun _ => k))
  (at level 100, right associativity) : py_scope.
Open Scope py_scope.

(** [for x in l: body x] *)
Fixpoint for_each {S X} (l : list X) (body : X -> M S unit) : M S unit :=
  match l with
  | [] => ret tt
  | x :: l' => body x ;; for_each l' body
  end.

(** [with open(p, 'rb') as f: return f.read()] *)
Definition read_file (f : FileSystem) (p : string) : Result bytes :=
  match f p with
  | Some file => if readable file then Ok (content file) else Raise OSError
  | None => Raise OSError
  end.

(** ** [ExportImage]: the builder *)

(** [self.fills[dst_chan] = FillImage(image, src_chan)] *)
Definition fill_image (self : ExportImage) (image : ImageId)
    (dst_chan src_chan : Channel) : ExportImage :=
  mkExportImage (dict_set Nat.eqb (fills self) dst_chan (FillImage image src_chan))
                (mime_type self).

(** [self.fills[dst_chan] = FillWhite()] *)
Definition fill_white (self : ExportImage) (dst_chan : Channel) : ExportImage :=
  mkExportImage (dict_set Nat.eqb (fills self) dst_chan FillWhite)
                (mime_type self).

(** [chan in self.fills] *)
Definition is_filled (self : ExportImage) (chan : Channel) : bool :=
  dict_mem Nat.eqb (fills self) chan.

(** [for chan in range(image.channels): fill_image(image, chan, chan)] *)
Definition from_blender_image (w : World) (image : ImageId) : ExportImage :=
  fold_left (fun export_image chan => fill_image export_image image chan chan)
            (seq 0 (channels (images w image))) new_ExportImage.

(** ** [__on_happy_path] *)

(** [isinstance(fill, FillImage)] *)
Definition isinstance_FillImage (fill : Fill) : bool :=
  match fill with FillImage _ _ => true | FillWhite => false end.

(** [dst_chan == fill.src_chan].  Python's [and] evaluates this conjunct
    only when every fill is a [FillImage]. *)
Definition dst_is_src (item : Channel * Fill) : bool :=
  match item with
  | (dst_chan, FillImage _ src_chan) => dst_chan =? src_chan
  | (_, FillWhite) => false
  end.

(** [fill.image.name for fill in self.fills.values()], likewise. *)
Definition fill_image_names (w : World) (l : list Fill) : list string :=
  flat_map (fun fill => match fill with
                        | FillImage image _ => [name (images w image)]
                        | FillWhite => []
                        end) l.

(** [len(set(l))] *)
Definition len_set (l : list string) : nat :=
  length (nodup string_dec l).

Definition on_happy_path (w : World) (self : ExportImage) : bool :=
  if forallb isinstance_FillImage (values (fills self)) then
    if forallb dst_is_src (items (fills self)) then
      len_set (fill_image_names w (values (fills self))) =? 1
    else false
  else false.

(** ** [__encode_from_image] *)

(** [{"image/jpeg": "JPEG", "image/png": "PNG"}.get(mime_type, "PNG")];
    [None] is not a key of the table. *)
Definition resolve_format (mt : option string) : string :=
  match mt with
  | Some s =>
      dict_get_default String.eqb
        [("image/jpeg", "JPEG"); ("image/png", "PNG")] s "PNG"
  | None => "PNG"
  end.

Definition lift {S X} (r : Result X) : M S X := fun s => (r, s).

(** [self.mime_type] *)
Definition get_mime_type {S} (self : ExportImage) : M S (option string) :=
  match mime_type self with
  | Some mt => ret mt
  | None => raise AttributeError
  end.

Section Encoders.
Variable host : Host.

(** [image.save()] *)
Definition save (image : ImageId) : M World unit :=
  w <- get ;;
  match image_save host image (images w image) with
  | Some b =>
      modify (fun w => set_fs w (fs_write (fs w) (filepath_raw (images w image)) b))
  | None => raise RuntimeError
  end.

(** The second half of [__encode_from_image]: save to a temporary file in
    the target format, put the image's own path and format back, read. *)
Definition resave (image : ImageId) (target : string) : M World bytes :=
  w <- get ;;
  let tmpdirname := mkdtemp host (fs w) in
  try_finally
    (let tmpfilename := (tmpdirname ++ "/img")%string in
     w <- get ;;
     let orig_filepath_raw := filepath_raw (images w image) in
     let orig_file_format := file_format (images w image) in
     try_finally
       (modify (fun w => upd_image w image (set_filepath_raw tmpfilename)) ;;
        modify (fun w => upd_image w image (set_file_format target)) ;;
        save image)
       (modify (fun w => upd_image w image (set_filepath_raw orig_filepath_raw)) ;;
        modify (fun w => upd_image w image (set_file_format orig_file_format))) ;;
     w <- get ;;
     lift (read_file (fs w) tmpfilename))
    (modify (fun w => set_fs w (fs_rmtree (fs w) tmpdirname))).

Definition encode_from_image (self : ExportImage) (image : ImageId)
    : M World bytes :=
  mt <- get_mime_type self ;;
  let target := resolve_format mt in
  w <- get ;;
  if String.eqb target (file_format (images w image))
     && negb (is_dirty (images w image)) then
    let src_path := abspath host (filepath_raw (images w image)) in
    if isfile (fs w) src_path then
      lift (read_file (fs w) src_path)
    else resave image target
  else resave image target.

(** [__encode_happy]: the image of the first fill; a method that falls off
    its end returns [None]. *)
Definition encode_happy (self : ExportImage) : M World (option bytes) :=
  match values (fills self) with
  | [] => ret None
  | FillImage image _ :: _ => b <- encode_from_image self image ;; ret (Some b)
  | FillWhite :: _ => raise AttributeError
  end.
End Encoders.

(** ** Scene attributes *)

Definition set_scene_id (v : nat) (s : Scene) : Scene :=
  mkScene v (use_nodes s) (nodes s) (links s) (resolution_x s) (resolution_y s)
    (resolution_percentage s) (render_file_format s) (color_mode s)
    (display_device s) (dither_intensity s) (use_stamp s) (filepath s)
    (use_file_extension s).

Definition set_use_nodes (v : bool) (s : Scene) : Scene :=
  mkScene (scene_id s) v (nodes s) (links s) (resolution_x s) (resolution_y s)
    (resolution_percentage s) (render_file_format s) (color_mode s)
    (display_device s) (dither_intensity s) (use_stamp s) (filepath s)
    (use_file_extension s).

Definition set_node_tree (n : list Node) (l : list Link) (s : Scene) : Scene :=
  mkScene (scene_id s) (use_nodes s) n l (resolution_x s) (resolution_y s)
    (resolution_percentage s) (render_file_format s) (color_mode s)
    (display_device s) (dither_intensity s) (use_stamp s) (filepath s)
    (use_file_extension s).

Definition set_resolution (x y pct : nat) (s : Scene) : Scene :=
  mkScene (scene_id s) (use_nodes s) (nodes s) (links s) x y pct
    (render_file_format s) (color_mode s) (display_device s)
    (dither_intensity s) (use_stamp s) (filepath s) (use_file_extension s).

Definition set_render_file_format (v : string) (s : Scene) : Scene :=
  mkScene (scene_id s) (use_nodes s) (nodes s) (links s) (resolution_x s)
    (resolution_y s) (resolution_percentage s) v (color_mode s)
    (display_device s) (dither_intensity s) (use_stamp s) (filepath s)
    (use_file_extension s).

Definition set_color_mode (v : string) (s : Scene) : Scene :=
  mkScene (scene_id s) (use_nodes s) (nodes s) (links s) (resolution_x s)
    (resolution_y s) (resolution_percentage s) (render_file_format s) v
    (display_device s) (dither_intensity s) (use_stamp s) (filepath s)
    (use_file_extension s).

Definition set_display_device (v : string) (s : Scene) : Scene :=
  mkScene (scene_id s) (use_nodes s) (nodes s) (links s) (resolution_x s)
    (resolution_y s) (resolution_percentage s) (render_file_format s)
    (color_mode s) v (dither_intensity s) (use_stamp s) (filepath s)
    (use_file_extension s).

Definition set_dither_intensity (v : Q) (s : Scene) : Scene :=
  mkScene (scene_id s) (use_nodes s) (nodes s) (links s) (resolution_x s)
    (resolution_y s) (resolution_percentage s) (render_file_format s)
    (color_mode s) (display_device s) v (use_stamp s) (filepath s)
    (use_file_extension s).

Definition set_use_stamp (v : list (string * bool)) (s : Scene) : Scene :=
  mkScene (scene_id s) (use_nodes s) (nodes s) (links s) (resolution_x s)
    (resolution_y s) (resolution_percentage s) (render_file_format s)
    (color_mode s) (display_device s) (dither_intensity s) v (filepath s)
    (use_file_extension s).

Definition set_filepath (v : string) (s : Scene) : Scene :=
  mkScene (scene_id s) (use_nodes s) (nodes s) (links s) (resolution_x s)
    (resolution_y s) (resolution_percentage s) (render_file_format s)
    (color_mode s) (display_device s) (dither_intensity s) (use_stamp s) v
    (use_file_extension s).

Definition set_use_file_extension (v : bool) (s : Scene) : Scene :=
  mkScene (scene_id s) (use_nodes s) (nodes s) (links s) (resolution_x s)
    (resolution_y s) (resolution_percentage s) (render_file_format s)
    (color_mode s) (display_device s) (dither_intensity s) (use_stamp s)
    (filepath s) v.

(** [l[k] = v] for [k] in range. *)
Fixpoint list_set {X} (l : list X) (k : nat) (v : X) : list X :=
  match l, k with
  | [], _ => []
  | _ :: l', 0 => v :: l'
  | x :: l', S k' => x :: list_set l' k' v
  end.

(** [node.inputs[k].default_value = v] on a Combine RGBA node. *)
Definition set_default_value (k : nat) (v : Q) (n : Node) : Node :=
  match n with
  | CompositorNodeCombRGBA d => CompositorNodeCombRGBA (list_set d k v)
  | _ => n
  end.

(** [node.image = image] on an Image node. *)
Definition set_node_image (image : ImageId) (n : Node) : Node :=
  match n with
  | CompositorNodeImage _ => CompositorNodeImage (Some image)
  | _ => n
  end.

Fixpoint list_modify {X} (l : list X) (k : nat) (f : X -> X) : list X :=
  match l, k with
  | [], _ => []
  | x :: l', 0 => f x :: l'
  | x :: l', S k' => x :: list_modify l' k' f
  end.

(** ** [__encode_unhappy] and [_render_tmp_scene] *)

(** The local variables of [__encode_unhappy] that its [finally] block and
    its loop share, next to the world. *)
Record Frame := mkFrame {
  tmp_scene : option Scene;
  orig_colorspaces : dict string string;
  loc_size : option (nat * nat);
  world : World
}.

Definition set_tmp_scene (v : option Scene) (fr : Frame) : Frame :=
  mkFrame v (orig_colorspaces fr) (loc_size fr) (world fr).

Definition set_orig_colorspaces (v : dict string string) (fr : Frame) : Frame :=
  mkFrame (tmp_scene fr) v (loc_size fr) (world fr).

Definition set_loc_size (v : option (nat * nat)) (fr : Frame) : Frame :=
  mkFrame (tmp_scene fr) (orig_colorspaces fr) v (world fr).

Definition set_world (v : World) (fr : Frame) : Frame :=
  mkFrame (tmp_scene fr) (orig_colorspaces fr) (loc_size fr) v.

(** A Combine RGBA node fresh from [nodes.new]: four inputs R, G, B, A. *)
Definition new_CombRGBA : Node :=
  CompositorNodeCombRGBA [0%Q; 0%Q; 0%Q; 1%Q].

(** [if mime_type:] *)
Definition truthy (mt : option string) : bool :=
  match mt with
  | Some s => negb (String.eqb s "")
  | None => false
  end.

Section Synthesis.
Variable host : Host.

(** An attribute assignment on [tmp_scene]. *)
Definition upd_scene (f : Scene -> Scene) : M Frame unit :=
  fr <- get ;;
  match tmp_scene fr with
  | Some s => modify (set_tmp_scene (Some (f s)))
  | None => raise AttributeError
  end.

Definition the_scene : M Frame Scene :=
  fr <- get ;;
  match tmp_scene fr with
  | Some s => ret s
  | None => raise AttributeError
  end.

(** [bpy.data.scenes.new('##gltf-export:tmp-scene##')] *)
Definition scenes_new : M Frame unit :=
  modify (fun fr =>
    let id := S (list_max (scenes (world fr))) in
    mkFrame (Some (set_scene_id id (new_scene host)))
            (orig_colorspaces fr) (loc_size fr)
            (set_scenes (world fr) (id :: scenes (world fr)))).

(** [bpy.data.scenes.remove(tmp_scene, do_unlink=True)] *)
Definition scenes_remove (s : Scene) : M Frame unit :=
  modify (fun fr =>
    set_world (set_scenes (world fr)
                 (filter (fun id => negb (id =? scene_id s)) (scenes (world fr))))
              fr).

(** [node_tree.nodes.new(...)]: the new node, by its position. *)
Definition nodes_new (n : Node) : M Frame nat :=
  s <- the_scene ;;
  upd_scene (fun s => set_node_tree (nodes s ++ [n]) (links s) s) ;;
  ret (length (nodes s)).

(** [node_tree.links.new(input, output)] *)
Definition links_new (input output : nat * Socket) : M Frame unit :=
  upd_scene (fun s =>
    set_node_tree (nodes s)
      (links s ++ [mkLink (fst input) (snd input) (fst output) (snd output)]) s).

Definition upd_node (k : nat) (f : Node -> Node) : M Frame unit :=
  upd_scene (fun s => set_node_tree (list_modify (nodes s) k f) (links s) s).

(** [bpy.ops.render.render(scene=tmp_scene.name, write_still=True)] *)
Definition render_render : M Frame unit :=
  s <- the_scene ;;
  modify (fun fr => set_world (log_render (world fr) s) fr) ;;
  fr <- get ;;
  match render_engine host (images (world fr)) s with
  | Some b =>
      modify (fun fr =>
        set_world (set_fs (world fr) (fs_write (fs (world fr)) (filepath s) b)) fr)
  | None => raise RuntimeError
  end.

Definition render_tmp_scene (width height : nat) (mt : option string)
    (colorspace : string) (has_alpha : bool) : M Frame bytes :=
  upd_scene (set_resolution width height 100) ;;
  (if truthy mt
   then upd_scene (set_render_file_format (resolve_format mt))
   else ret tt) ;;
  upd_scene (set_display_device colorspace) ;;
  upd_scene (set_color_mode (if has_alpha then "RGBA" else "RGB")) ;;
  upd_scene (set_dither_intensity 0%Q) ;;
  upd_scene (fun s =>
    set_use_stamp (map (fun a => (fst a, false)) (use_stamp s)) s) ;;
  fr <- get ;;
  let tmpdirname := mkdtemp host (fs (world fr)) in
  try_finally
    (let tmpfilename := (tmpdirname ++ "/img")%string in
     upd_scene (set_filepath tmpfilename) ;;
     upd_scene (set_use_file_extension false) ;;
     render_render ;;
     fr <- get ;;
     lift (read_file (fs (world fr)) tmpfilename))
    (modify (fun fr =>
       set_world (set_fs (world fr) (fs_rmtree (fs (world fr)) tmpdirname)) fr)).

(** The body of the loop over [self.fills.items()]. *)
Definition route_fill (comb_rgba : nat) (item : Channel * Fill) : M Frame unit :=
  match item with
  | (dst_chan, FillImage image src_chan) =>
      img <- nodes_new (CompositorNodeImage None) ;;
      upd_node img (set_node_image image) ;;
      sep_rgba <- nodes_new CompositorNodeSepRGBA ;;
      links_new (sep_rgba, SocketImage) (img, SocketImage) ;;
      (* comb_rgba.inputs[dst_chan], sep_rgba.outputs[fill.src_chan] *)
      (if (dst_chan <? 4) && (src_chan <? 4)
       then links_new (comb_rgba, SocketIndex dst_chan)
                      (sep_rgba, SocketIndex src_chan)
       else raise IndexError) ;;
      fr <- get ;;
      let img_name := name (images (world fr) image) in
      (if negb (dict_mem String.eqb (orig_colorspaces fr) img_name)
       then
         let orig_colorspace := colorspace_settings_name (images (world fr) image) in
         modify (set_orig_colorspaces
                   (dict_set String.eqb (orig_colorspaces fr) img_name orig_colorspace))
       else ret tt) ;;
      modify (fun fr =>
        set_world (upd_image (world fr) image (set_colorspace "Non-Color")) fr) ;;
      fr <- get ;;
      match loc_size fr with
      | None => modify (set_loc_size (Some (size (images (world fr) image))))
      | Some sz =>
          if (fst sz =? fst (size (images (world fr) image)))
             && (snd sz =? snd (size (images (world fr) image)))
          then ret tt
          else raise AssertionError
      end
  | (_, FillWhite) => ret tt
  end.

Definition build_and_render (self : ExportImage) : M Frame bytes :=
  scenes_new ;;
  upd_scene (set_use_nodes true) ;;
  (* for node in node_tree.nodes: node_tree.nodes.remove(node) *)
  upd_scene (set_node_tree [] []) ;;
  out <- nodes_new CompositorNodeComposite ;;
  comb_rgba <- nodes_new new_CombRGBA ;;
  upd_node comb_rgba (set_default_value 0 1%Q) ;;
  upd_node comb_rgba (set_default_value 1 1%Q) ;;
  upd_node comb_rgba (set_default_value 2 1%Q) ;;
  upd_node comb_rgba (set_default_value 3 1%Q) ;;
  links_new (out, SocketImage) (comb_rgba, SocketImage) ;;
  for_each (items (fills self)) (route_fill comb_rgba) ;;
  fr <- get ;;
  (match loc_size fr with
   | None => modify (set_loc_size (Some (1, 1)))
   | Some _ => ret tt
   end) ;;
  fr <- get ;;
  let sz := match loc_size fr with Some sz => sz | None => (1, 1) end in
  mt <- get_mime_type self ;;
  render_tmp_scene (fst sz) (snd sz) mt "None" (dict_mem Nat.eqb (fills self) A).

(** [bpy.data.images[img_name].colorspace_settings.name = colorspace] *)
Definition restore_colorspace (item : string * string) : M Frame unit :=
  fr <- get ;;
  match images_by_name (world fr) (fst item) with
  | Some i =>
      modify (fun fr =>
        set_world (upd_image (world fr) i (set_colorspace (snd item))) fr)
  | None => raise KeyError
  end.

(** The [finally] block of [__encode_unhappy]. *)
Definition cleanup : M Frame unit :=
  fr <- get ;;
  (match tmp_scene fr with
   | Some s => scenes_remove s
   | None => ret tt
   end) ;;
  fr <- get ;;
  for_each (items (orig_colorspaces fr)) restore_colorspace.

Definition encode_unhappy (self : ExportImage) : M World bytes :=
  fun w =>
    let (r, fr) :=
      try_finally (build_and_render self) cleanup (mkFrame None [] None w) in
    (r, world fr).

(** [encode]: the object after the call, what the call returns or raises,
    and the world after it. *)
Definition encode (self : ExportImage) (mt : option string) (w : World)
    : ExportImage * (Result (option bytes) * World) :=
  let self := mkExportImage (fills self) (Some mt) in
  (self,
   if on_happy_path w self
   then encode_happy host self w
   else (b <- encode_unhappy self ;; ret (Some b)) w).
End Synthesis.

(** * Vocabulary of the properties *)

(** The three conditions of the path classifier, on the fills of a spec. *)
Definition every_fill_is_FillImage (self : ExportImage) : Prop :=
  forall dst fill, In (dst, fill) (fills self) ->
    exists image src, fill = FillImage image src.

Definition every_dst_is_src (self : ExportImage) : Prop :=
  forall dst image src, In (dst, FillImage image src) (fills self) -> dst = src.

Definition one_source_image (self : ExportImage) : Prop :=
  forall d1 i1 s1 d2 i2 s2,
    In (d1, FillImage i1 s1) (fills self) ->
    In (d2, FillImage i2 s2) (fills self) -> i1 = i2.

Definition one_source_name (w : World) (self : ExportImage) : Prop :=
  forall d1 i1 s1 d2 i2 s2,
    In (d1, FillImage i1 s1) (fills self) ->
    In (d2, FillImage i2 s2) (fills self) ->
    name (images w i1) = name (images w i2).

(** The images a spec draws from. *)
Definition touched (self : ExportImage) (image : ImageId) : Prop :=
  exists dst src, In (dst, FillImage image src) (fills self).

(** [bpy.data.images[image.name] is image], for the images of a spec: the
    collection hands back the very datablock the fill refers to. *)
Definition refs_resolve (w : World) (self : ExportImage) : Prop :=
  forall image, touched self image ->
    images_by_name w (name (images w image)) = Some image.

(** Every channel of the spec is a member of [Channel]. *)




(** The image [__encode_happy] hands to [__encode_from_image]. *)
Definition happy_image (self : ExportImage) : option ImageId :=
  match values (fills self) with
  | FillImage image _ :: _ => Some image
  | _ => None
  end.

(** The outcome of a call, without the object. *)
Definition encode_result (host : Host) (self : ExportImage) (mt : option string)
    (w : World) : Result (option bytes) :=
  fst (snd (encode host self mt w)).

Definition encode_world (host : Host) (self : ExportImage) (mt : option string)
    (w : World) : World :=
  snd (snd (encode host self mt w)).

Definition encode_self (host : Host) (self : ExportImage) (mt : option string)
    (w : World) : ExportImage :=
  fst (encode host self mt w).


(** * A small host and a few worlds, for the examples *)

Module Examples.

Definition a_scene : Scene :=
  mkScene 0 false [CompositorNodeComposite] [] 1920 1080 50 "PNG" "RGBA"
          "sRGB" 1%Q [("use_stamp_date", true); ("use_stamp_time", true)]
          "/tmp/" true.

(** Saving and rendering write the name of the container they were asked
    for; nothing fails. *)
Definition host0 : Host :=
  mkHost (fun p => p)
         (fun _ img => Some (list_byte_of_string (file_format img)))
         (fun _ s => Some (list_byte_of_string (render_file_format s)))
         a_scene
         (fun _ => "/tmp/tmpgltf").

(** The same host with a renderer that fails. *)
Definition host_no_render : Host :=
  mkHost (fun p => p)
         (fun _ img => Some (list_byte_of_string (file_format img)))
         (fun _ _ => None)
         a_scene
         (fun _ => "/tmp/tmpgltf").

Definition imgA : Image :=
  mkImage "imgA" 4 (4, 4) "sRGB" false "/tex/a.png" "PNG".
Definition imgB : Image :=
  mkImage "imgB" 4 (8, 8) "Linear" false "/tex/b.png" "PNG".
Definition imgC : Image :=
  mkImage "imgC" 4 (4, 4) "Linear" true "/tex/c.jpg" "JPEG".
(* an image whose pixels could not be loaded *)
Definition imgNone : Image :=
  mkImage "missing" 0 (0, 0) "sRGB" false "/tex/missing.png" "PNG".

Definition heap0 (i : ImageId) : Image :=
  match i with
  | 0 => imgA
  | 1 => imgB
  | 2 => imgC
  | _ => imgNone
  end.

Definition fs0 : FileSystem :=
  fun p => if String.eqb p "/tex/a.png"
           then Some (mkFile true (list_byte_of_string "PNG"))
           else if String.eqb p "/tex/b.png"
           then Some (mkFile false (list_byte_of_string "PNG"))
           else None.

Definition world0 : World := mkWorld heap0 [0; 1; 2; 3] fs0 [] [].

(** {R: FillImage(imgA, R), G: FillImage(imgA, G)} *)
Definition spec_A : ExportImage :=
  fill_image (fill_image new_ExportImage 0 R R) 0 G G.



(** {R: FillImage(imgA, B), G: FillImage(imgC, G), A: FillWhite()} *)
Definition spec_AC : ExportImage :=
  fill_white (fill_image (fill_image new_ExportImage 0 R B) 2 G G) A.


(** Two datablocks of one name, as a local image and a linked one. *)
Definition imgT1 : Image :=
  mkImage "Im" 4 (4, 4) "sRGB" false "/tex/im.png" "PNG".
Definition imgT2 : Image :=
  mkImage "Im" 4 (8, 8) "Linear" false "/lib/im.png" "PNG".

Definition imgT3 : Image :=
  mkImage "Im" 4 (4, 4) "Linear" false "/lib2/im.png" "PNG".

Definition heapT (i : ImageId) : Image :=
  match i with
  | 0 => imgT1
  | 1 => imgT2
  | _ => imgT3
  end.

Definition fsT : FileSystem :=
  fun p => if String.eqb p "/tex/im.png"
           then Some (mkFile true (list_byte_of_string "PNG"))
           else None.

Definition worldT : World := mkWorld heapT [0; 1; 2] fsT [] [].

(** {R: FillImage(imgT1, R), G: FillImage(imgT2, G)} *)
Definition spec_twins : ExportImage :=
  fill_image (fill_image new_ExportImage 0 R R) 1 G G.



End Examples.

(** * The loop of [__encode_unhappy], step by step *)

(** The scene once the Image and Separate RGBA nodes of a fill are in and
    linked to each other. *)
Definition scene_with_source (s : Scene) (image : ImageId) : Scene :=
  set_node_tree
    (nodes s ++ [CompositorNodeImage (Some image)] ++ [CompositorNodeSepRGBA])
    (links s ++ [mkLink (S (length (nodes s))) SocketImage
                        (length (nodes s)) SocketImage])
    s.

(** ... and once the source channel is routed into the Combine RGBA node. *)
Definition scene_with_route (comb_rgba : nat) (s : Scene) (dst_chan : Channel)
    (image : ImageId) (src_chan : Channel) : Scene :=
  set_node_tree
    (nodes s ++ [CompositorNodeImage (Some image)] ++ [CompositorNodeSepRGBA])
    (links s ++ [mkLink (S (length (nodes s))) SocketImage
                        (length (nodes s)) SocketImage]
             ++ [mkLink comb_rgba (SocketIndex dst_chan)
                        (S (length (nodes s))) (SocketIndex src_chan)])
    s.

(** The table of saved colorspaces after a fill from [image]. *)
Definition saved (orig : dict string string) (w : World) (image : ImageId)
    : dict string string :=
  if dict_mem String.eqb orig (name (images w image)) then orig
  else dict_set String.eqb orig (name (images w image))
         (colorspace_settings_name (images w image)).

Definition same_size (a b : nat * nat) : bool :=
  (fst a =? fst b) && (snd a =? snd b).

(** The scene [__encode_unhappy] starts its loop with: the Composite node
    fed by a Combine RGBA node whose four inputs default to 1.0. *)
Definition prelude_scene (host : Host) (w : World) : Scene :=
  set_node_tree
    [CompositorNodeComposite; CompositorNodeCombRGBA [1%Q; 1%Q; 1%Q; 1%Q]]
    [mkLink 0 SocketImage 1 SocketImage]
    (set_use_nodes true
       (set_scene_id (S (list_max (scenes w))) (new_scene host))).

Definition prelude_frame (host : Host) (w : World) : Frame :=
  mkFrame (Some (prelude_scene host w)) [] None
          (set_scenes w (S (list_max (scenes w)) :: scenes w)).

(** The scene as [_render_tmp_scene] hands it to the renderer. *)
Definition configured (host : Host) (f : FileSystem) (s : Scene)
    (width height : nat) (mt : option string) (has_alpha : bool) : Scene :=
  set_use_file_extension false
    (set_filepath (mkdtemp host f ++ "/img")%string
       (set_use_stamp (map (fun a => (fst a, false)) (use_stamp s))
          (set_dither_intensity 0%Q
             (set_color_mode (if has_alpha then "RGBA" else "RGB")
                (set_display_device "None"
                   ((if truthy mt
                     then set_render_file_format (resolve_format mt)
                     else fun s => s)
                      (set_resolution width height 100 s))))))).

(** What [__encode_unhappy] returns once its [try] block has ended with [r]
    in the frame [fr]. *)
Definition finish {X} (r : Result X) (fr : Frame) : Result X * World :=
  match cleanup fr with
  | (Ok _, fr') => (r, world fr')
  | (Raise e, fr') => (Raise e, world fr')
  end.

Definition size_or_1x1 (fr : Frame) : nat * nat :=
  match loc_size fr with Some sz => sz | None => (1, 1) end.

(** * Invariants of [__encode_unhappy] *)

Definition same_but_colorspace (a b : Image) : Prop :=
  name a = name b /\ channels a = channels b /\ size a = size b /\
  is_dirty a = is_dirty b /\ filepath_raw a = filepath_raw b /\
  file_format a = file_format b.

(** What the loop leaves alone, relative to the world [w0] of the call. *)
Record steady (host : Host) (w0 : World) (fr : Frame) : Prop := {
  st_scene : exists s, tmp_scene fr = Some s /\
               render_file_format s = render_file_format (new_scene host);
  st_images : forall i, same_but_colorspace (images (world fr) i) (images w0 i);
  st_data_images : data_images (world fr) = data_images w0;
  st_fs : fs (world fr) = fs w0;
  st_rendered : rendered (world fr) = rendered w0
}.



(** The [try] block of [__encode_unhappy], run from the state of the call:
    its outcome and the frame its [finally] block finds. *)
Definition try_block (host : Host) (self : ExportImage) (mt : option string)
    (w : World) : Result bytes * Frame :=
  build_and_render host (mkExportImage (fills self) (Some mt))
    (mkFrame None [] None w).

(** [encode] returns what its encoder returns. *)
Definition returned (r : Result bytes) : Result (option bytes) :=
  match r with Ok b => Ok (Some b) | Raise e => Raise e end.

(** * The fast path *)

(** The test of [__encode_from_image] for handing back the file as it is. *)
Definition verbatim (host : Host) (mt : option string) (w : World)
    (image : ImageId) : bool :=
  String.eqb (resolve_format mt) (file_format (images w image))
  && negb (is_dirty (images w image))
  && isfile (fs w) (abspath host (filepath_raw (images w image))).

(** The image as [image.save()] finds it in the second half of
    [__encode_from_image]. *)
Definition image_for_save (host : Host) (mt : option string) (w : World)
    (image : ImageId) : Image :=
  set_file_format (resolve_format mt)
    (set_filepath_raw (mkdtemp host (fs w) ++ "/img")%string (images w image)).


(** * Vocabulary for the routing graph and the render *)

(** The first image a spec draws from, in the order of [self.fills]. *)
Fixpoint first_source (l : list (Channel * Fill)) : option ImageId :=
  match l with
  | [] => None
  | (_, FillImage image _) :: _ => Some image
  | (_, FillWhite) :: l' => first_source l'
  end.

(** Channel [src_chan] of [image] feeds input [dst_chan] of the Combine
    RGBA node [comb_rgba]: an Image node holding [image], linked to a
    Separate RGBA node, whose output [src_chan] is linked to that input. *)
Definition wired (comb_rgba : nat) (s : Scene) (dst_chan : Channel)
    (image : ImageId) (src_chan : Channel) : Prop :=
  exists img sep_rgba,
    nth_error (nodes s) img = Some (CompositorNodeImage (Some image)) /\
    nth_error (nodes s) sep_rgba = Some CompositorNodeSepRGBA /\
    In (mkLink sep_rgba SocketImage img SocketImage) (links s) /\
    In (mkLink comb_rgba (SocketIndex dst_chan) sep_rgba (SocketIndex src_chan))
       (links s).



(** The temporary scene through the loop. *)
Definition holds_tmp_scene (w : World) (fr : Frame) : Prop :=
  (exists s, tmp_scene fr = Some s /\ scene_id s = S (list_max (scenes w))) /\
  scenes (world fr) = S (list_max (scenes w)) :: scenes w.


(** The scene after the loop over [l], from the scene [s]. *)
Fixpoint routed (comb_rgba : nat) (l : list (Channel * Fill)) (s : Scene)
    : Scene :=
  match l with
  | [] => s
  | (dst_chan, FillImage image src_chan) :: l' =>
      routed comb_rgba l' (scene_with_route comb_rgba s dst_chan image src_chan)
  | (_, FillWhite) :: l' => routed comb_rgba l' s
  end.

(** The world after the loop over [l], from the world [w]. *)
Fixpoint non_color (l : list (Channel * Fill)) (w : World) : World :=
  match l with
  | [] => w
  | (_, FillImage image _) :: l' =>
      non_color l' (upd_image w image (set_colorspace "Non-Color"))
  | (_, FillWhite) :: l' => non_color l' w
  end.

(** The size of the render: that of the first image, or 1x1. *)
Definition render_size (w : World) (self : ExportImage) : nat * nat :=
  match first_source (items (fills self)) with
  | Some image => size (images w image)
  | None => (1, 1)
  end.

(** The scene the composite path renders when its loop has not raised. *)
Definition composite_scene (host : Host) (self : ExportImage)
    (mt : option string) (w : World) : Scene :=
  configured host (fs w)
    (routed 1 (items (fills self)) (prelude_scene host w))
    (fst (render_size w self)) (snd (render_size w self)) mt
    (is_filled self A).

(** * Proofs *)

(** ** Lists *)

Lemma list_modify_last {X} (l : list X) (x : X) (f : X -> X) :
  list_modify (l ++ [x]) (length l) f = l ++ [f x].
Proof.
  induction l as [|y l IH]; simpl; [reflexivity|].
  now rewrite IH.
Qed.

(** ** One step of the loop *)

Lemma route_fill_FillWhite comb dst fr :
  route_fill comb (dst, FillWhite) fr = (Ok tt, fr).
Proof. reflexivity. Qed.

Lemma route_fill_FillImage comb dst image src s orig sz w :
  route_fill comb (dst, FillImage image src) (mkFrame (Some s) orig sz w) =
  if (dst <? 4) && (src <? 4) then
    let fr := mkFrame (Some (scene_with_route comb s dst image src))
                      (saved orig w image)
                      (match sz with
                       | Some z => Some z
                       | None => Some (size (images w image))
                       end)
                      (upd_image w image (set_colorspace "Non-Color")) in
    match sz with
    | Some z =>
        if same_size z (size (images w image)) then (Ok tt, fr)
        else (Raise AssertionError, fr)
    | None => (Ok tt, fr)
    end
  else (Raise IndexError, mkFrame (Some (scene_with_source s image)) orig sz w).
Proof.
  unfold route_fill, nodes_new, links_new, upd_node, upd_scene, the_scene,
    bind, get, modify, ret, raise.
  cbn -[Nat.ltb].
  rewrite !list_modify_last, !length_app. cbn -[Nat.ltb].
  rewrite Nat.add_1_r, Nat.eqb_refl.
  unfold scene_with_route, scene_with_source, saved, same_size.
  destruct ((dst <? 4) && (src <? 4)); cbn.
  - destruct (dict_mem String.eqb orig (name (images w image))); cbn;
      destruct sz as [z|]; cbn; rewrite <- ?app_assoc; cbn;
      try reflexivity;
      destruct ((fst z =? fst (size (images w image))) &&
                (snd z =? snd (size (images w image)))); reflexivity.
  - rewrite <- ?app_assoc. reflexivity.
Qed.

(** ** [_render_tmp_scene] and the frame of [__encode_unhappy] *)

Lemma read_after_write f p b : read_file (fs_write f p b) p = Ok b.
Proof. unfold read_file, fs_write. now rewrite String.eqb_refl. Qed.

Lemma render_tmp_scene_eq host width height mt has_alpha s orig sz w :
  render_tmp_scene host width height mt "None" has_alpha
    (mkFrame (Some s) orig sz w) =
  let s' := configured host (fs w) s width height mt has_alpha in
  let tmpdirname := mkdtemp host (fs w) in
  match render_engine host (images w) s' with
  | Some b =>
      (Ok b,
       mkFrame (Some s') orig sz
         (set_fs (log_render w s')
            (fs_rmtree (fs_write (fs w) (filepath s') b) tmpdirname)))
  | None =>
      (Raise RuntimeError,
       mkFrame (Some s') orig sz
         (set_fs (log_render w s') (fs_rmtree (fs w) tmpdirname)))
  end.
Proof.
  unfold render_tmp_scene, render_render, upd_scene, the_scene, try_finally,
    bind, get, modify, ret, raise, lift.
  cbn. unfold configured.
  destruct (truthy mt); cbn;
    match goal with
    | |- context [render_engine host ?h ?sc] =>
        destruct (render_engine host h sc) as [b|] eqn:E
    end; cbn; rewrite ?read_after_write; reflexivity.
Qed.

Lemma build_and_render_eq host self w :
  build_and_render host self (mkFrame None [] None w) =
  match for_each (items (fills self)) (route_fill 1) (prelude_frame host w) with
  | (Ok _, fr) =>
      match mime_type self with
      | Some mt =>
          render_tmp_scene host (fst (size_or_1x1 fr)) (snd (size_or_1x1 fr)) mt
            "None" (dict_mem Nat.eqb (fills self) A)
            (set_loc_size (Some (size_or_1x1 fr)) fr)
      | None => (Raise AttributeError, set_loc_size (Some (size_or_1x1 fr)) fr)
      end
  | (Raise e, fr) => (Raise e, fr)
  end.
Proof.
  unfold build_and_render, scenes_new, nodes_new, links_new, upd_node,
    upd_scene, the_scene, get_mime_type, bind, get, modify, ret, raise.
  cbn.
  change (for_each (items (fills self)) (route_fill 1) _)
    with (for_each (items (fills self)) (route_fill 1) (prelude_frame host w)).
  destruct (for_each (items (fills self)) (route_fill 1) (prelude_frame host w))
    as [[[]|e] fr]; [|reflexivity].
  unfold size_or_1x1.
  destruct fr as [ts oc [sz|] wd]; cbn; destruct (mime_type self); reflexivity.
Qed.

Lemma encode_unhappy_eq host self w :
  encode_unhappy host self w =
  let (r, fr) := build_and_render host self (mkFrame None [] None w) in
  finish r fr.
Proof.
  unfold encode_unhappy, try_finally, finish.
  destruct (build_and_render host self _) as [r fr].
  destruct (cleanup fr) as [[[]|e] fr']; reflexivity.
Qed.

(** ** Dictionaries *)



Lemma dict_mem_nat_keys {V} (d : dict nat V) k :
  dict_mem Nat.eqb d k = true <-> In k (keys d).
Proof.
  unfold dict_mem. induction d as [|[k' v] d IH]; simpl.
  - split; [discriminate | tauto].
  - destruct (Nat.eqb_spec k' k) as [->|Hne].
    + split; auto.
    + rewrite IH. split; [auto | intros [H|H]; [contradiction | exact H]].
Qed.

(** ** Loops *)

Lemma for_each_cons {S X} (x : X) (l : list X) (body : X -> M S unit) s :
  for_each (x :: l) body s =
  match body x s with
  | (Ok _, s') => for_each l body s'
  | (Raise e, s') => (Raise e, s')
  end.
Proof. reflexivity. Qed.

Lemma for_each_invariant {S X} (I : S -> Prop) (l : list X)
    (body : X -> M S unit) :
  (forall x s, In x l -> I s -> I (snd (body x s))) ->
  forall s, I s -> I (snd (for_each l body s)).
Proof.
  induction l as [|x l IH]; intros Hstep s Hs; [exact Hs|].
  rewrite for_each_cons.
  pose proof (Hstep x s (or_introl eq_refl) Hs) as H1.
  destruct (body x s) as [[[]|e] s']; simpl in *; [|exact H1].
  apply IH; [|exact H1].
  intros y t Hy. apply Hstep. now right.
Qed.

(** ** The loop keeps [steady] and [bookkeeping] *)

Lemma same_but_colorspace_refl a : same_but_colorspace a a.
Proof. repeat split. Qed.

Lemma same_but_colorspace_set c a b :
  same_but_colorspace a b -> same_but_colorspace (set_colorspace c a) b.
Proof. intros H; exact H. Qed.


Lemma steady_prelude host w : steady host w (prelude_frame host w).
Proof.
  split; simpl; try reflexivity.
  - eexists; split; reflexivity.
  - intros i. apply same_but_colorspace_refl.
Qed.

Lemma steady_step host w0 comb item fr :
  steady host w0 fr -> steady host w0 (snd (route_fill comb item fr)).
Proof.
  intros [[s [Hs Hf]] Hi Hd Hfs Hr].
  destruct item as [dst [image src|]]; [|split; eauto].
  destruct fr as [ts orig sz w]; simpl in Hs, Hi, Hd, Hfs, Hr; subst ts.
  rewrite route_fill_FillImage.
  assert (Hupd : forall i, same_but_colorspace
            (images (upd_image w image (set_colorspace "Non-Color")) i)
            (images w0 i)).
  { intros i. simpl. destruct (i =? image); [|apply Hi].
    apply same_but_colorspace_set, Hi. }
  destruct ((dst <? 4) && (src <? 4)).
  - destruct sz as [z|]; [destruct (same_size z (size (images w image)))|];
      simpl; split; simpl; eauto.
  - simpl; split; simpl; eauto.
Qed.



Lemma loop_steady host self w :
  steady host w
    (snd (for_each (items (fills self)) (route_fill 1) (prelude_frame host w))).
Proof.
  apply for_each_invariant with (I := steady host w).
  - intros x s _. apply steady_step.
  - apply steady_prelude.
Qed.


(** ** The [finally] block *)



(** ** The [try] block as a whole *)



Lemma encode_composite host self mt w :
  on_happy_path w self = false ->
  encode host self mt w =
  (mkExportImage (fills self) (Some mt),
   match encode_unhappy host (mkExportImage (fills self) (Some mt)) w with
   | (Ok b, w') => (Ok (Some b), w')
   | (Raise e, w') => (Raise e, w')
   end).
Proof.
  intros H. unfold encode.
  change (on_happy_path w (mkExportImage (fills self) (Some mt)))
    with (on_happy_path w self).
  rewrite H. unfold bind, ret.
  destruct (encode_unhappy host _ w) as [[b|e] w']; reflexivity.
Qed.

(** ** Colorspace restoration *)


(** ** The path classifier *)

Lemma len_set_one (l : list string) :
  len_set l = 1 <-> exists x, In x l /\ forall y, In y l -> y = x.
Proof.
  unfold len_set. split.
  - intros H. destruct (nodup string_dec l) as [|x [|? ?]] eqn:E;
      try discriminate.
    exists x. split.
    + apply (proj1 (nodup_In string_dec l x)). rewrite E. now left.
    + intros y Hy. apply (proj2 (nodup_In string_dec l y)) in Hy.
      rewrite E in Hy.
      destruct Hy as [<-|[]]. reflexivity.
  - intros [x [Hx Hall]].
    pose proof (NoDup_nodup string_dec l) as Hnd.
    assert (Hsub : forall y, In y (nodup string_dec l) -> y = x)
      by (intros y Hy; apply Hall; exact (proj1 (nodup_In string_dec l y) Hy)).
    apply (proj2 (nodup_In string_dec l x)) in Hx.
    destruct (nodup string_dec l) as [|a [|b t]]; [destruct Hx|reflexivity|].
    exfalso. inversion Hnd as [|? ? Hnotin _]; subst. apply Hnotin.
    rewrite (Hsub a), (Hsub b); simpl; auto.
Qed.

Lemma in_fill_image_names w (d : dict Channel Fill) n :
  In n (fill_image_names w (values d)) <->
  exists dst image src, In (dst, FillImage image src) d /\
                        n = name (images w image).
Proof.
  unfold fill_image_names, values. rewrite in_flat_map. split.
  - intros [fill [Hin Hn]]. apply in_map_iff in Hin.
    destruct Hin as [[dst fill'] [<- Hin]]. simpl in Hn.
    destruct fill' as [image src|]; [|destruct Hn].
    destruct Hn as [<-|[]]. now exists dst, image, src.
  - intros (dst & image & src & Hin & ->).
    exists (FillImage image src). split; [|now left].
    apply in_map_iff. now exists (dst, FillImage image src).
Qed.

Lemma all_isinstance_FillImage self :
  forallb isinstance_FillImage (values (fills self)) = true <->
  every_fill_is_FillImage self.
Proof.
  unfold every_fill_is_FillImage, values. rewrite forallb_forall. split.
  - intros H dst fill Hin.
    specialize (H fill (in_map snd _ _ Hin)).
    destruct fill as [image src|]; [now exists image, src | discriminate].
  - intros H fill Hin. apply in_map_iff in Hin.
    destruct Hin as [[dst fill'] [<- Hin]].
    destruct (H dst fill' Hin) as (image & src & ->). reflexivity.
Qed.

Lemma all_dst_is_src self :
  every_fill_is_FillImage self ->
  (forallb dst_is_src (items (fills self)) = true <-> every_dst_is_src self).
Proof.
  intros Hall. unfold every_dst_is_src, items. rewrite forallb_forall. split.
  - intros H dst image src Hin. specialize (H _ Hin). simpl in H.
    now apply Nat.eqb_eq.
  - intros H [dst fill] Hin.
    destruct (Hall dst fill Hin) as (image & src & ->). simpl.
    apply Nat.eqb_eq. eapply H, Hin.
Qed.

(** The classifier, as the code decides it: by the names of the images. *)
Lemma on_happy_path_names w self :
  on_happy_path w self = true <->
  fills self <> [] /\ every_fill_is_FillImage self /\ every_dst_is_src self /\
  one_source_name w self.
Proof.
  unfold on_happy_path.
  destruct (forallb isinstance_FillImage (values (fills self))) eqn:E1.
  - apply all_isinstance_FillImage in E1.
    destruct (forallb dst_is_src (items (fills self))) eqn:E2.
    + apply (all_dst_is_src E1) in E2.
      rewrite Nat.eqb_eq, len_set_one. split.
      * intros [x [Hx Hall]]. apply in_fill_image_names in Hx.
        destruct Hx as (dst & image & src & Hin & ->).
        split; [intros Hnil; rewrite Hnil in Hin; destruct Hin|].
        repeat split; try assumption.
        intros d1 i1 s1 d2 i2 s2 H1 H2.
        rewrite (Hall (name (images w i1))), (Hall (name (images w i2)));
          [reflexivity | |]; apply in_fill_image_names; eauto.
      * intros (Hne & _ & _ & Hone).
        destruct (fills self) as [|[dst fill] d] eqn:Ef; [contradiction|].
        destruct (E1 dst fill) as (image & src & ->);
          [rewrite Ef; now left|].
        exists (name (images w image)). split.
        -- apply in_fill_image_names. exists dst, image, src. split; auto.
           now left.
        -- intros y Hy. apply in_fill_image_names in Hy.
           destruct Hy as (d2 & i2 & s2 & Hin & ->).
           unfold one_source_name in Hone. rewrite Ef in Hone.
           eapply Hone; [exact Hin | now left].
    + split; [discriminate|]. intros (_ & _ & H & _).
      apply (all_dst_is_src E1) in H. congruence.
  - split; [discriminate|]. intros (_ & H & _).
    apply all_isinstance_FillImage in H. congruence.
Qed.

Lemma resolved_names_identify w self :
  refs_resolve w self -> (one_source_name w self <-> one_source_image self).
Proof.
  intros Hres. split; intros H d1 i1 s1 d2 i2 s2 H1 H2.
  - pose proof (H _ _ _ _ _ _ H1 H2) as Hn.
    assert (T1 : touched self i1) by now exists d1, s1.
    assert (T2 : touched self i2) by now exists d2, s2.
    pose proof (Hres _ T1) as R1. pose proof (Hres _ T2) as R2.
    rewrite Hn in R1. congruence.
  - now rewrite (H _ _ _ _ _ _ H1 H2).
Qed.

Lemma on_happy_path_resolved w self :
  refs_resolve w self ->
  (on_happy_path w self = true <->
   fills self <> [] /\ every_fill_is_FillImage self /\ every_dst_is_src self /\
   one_source_image self).
Proof.
  intros Hres. rewrite on_happy_path_names, (resolved_names_identify Hres).
  reflexivity.
Qed.

(** C1, amended. When every image a fill refers to is the one
    [bpy.data.images] returns for its name, the classifier selects the fast
    path if and only if the spec has at least one fill, every fill is a
    [FillImage], every destination channel is its source channel, and all
    fills draw from the same image. *)
Theorem classifier_fast_path w self :
  refs_resolve w self ->
  (on_happy_path w self = true <->
   fills self <> [] /\ every_fill_is_FillImage self /\ every_dst_is_src self /\
   one_source_image self).
Proof. apply on_happy_path_resolved. Qed.

(** ** The size check of the loop *)






(** ** What is rendered *)

Lemma cleanup_rendered fr :
  rendered (world (snd (cleanup fr))) = rendered (world fr).
Proof.
  unfold cleanup, scenes_remove, bind, get, modify, ret.
  assert (H : forall l fr0,
             rendered (world (snd (for_each l restore_colorspace fr0))) =
             rendered (world fr0)).
  { intros l fr0.
    apply for_each_invariant
      with (I := fun f => rendered (world f) = rendered (world fr0));
      [|reflexivity].
    intros x s _ Hs. unfold restore_colorspace, bind, get, modify, raise.
    cbn beta iota. destruct (images_by_name (world s) (fst x)); exact Hs. }
  destruct (tmp_scene fr); cbn beta iota; rewrite H; reflexivity.
Qed.

Lemma finish_rendered {X} (r : Result X) fr :
  rendered (snd (finish r fr)) = rendered (world fr).
Proof.
  unfold finish. pose proof (cleanup_rendered fr) as H.
  destruct (cleanup fr) as [[[]|e] fr']; exact H.
Qed.



Lemma encode_composite_outcome host self mt w :
  on_happy_path w self = false ->
  encode_result host self mt w =
    returned (fst (finish (fst (try_block host self mt w))
                          (snd (try_block host self mt w)))) /\
  encode_world host self mt w =
    snd (finish (fst (try_block host self mt w))
                (snd (try_block host self mt w))).
Proof.
  intros Hpath. unfold encode_result, encode_world, try_block.
  rewrite (@encode_composite host self mt w Hpath), encode_unhappy_eq.
  destruct (build_and_render host _ _) as [r fr]. cbn [fst snd].
  destruct (finish r fr) as [[b|e] w']; split; reflexivity.
Qed.

Lemma try_block_eq host self mt w :
  try_block host self mt w =
  match for_each (items (fills self)) (route_fill 1) (prelude_frame host w) with
  | (Ok _, fr) =>
      render_tmp_scene host (fst (size_or_1x1 fr)) (snd (size_or_1x1 fr)) mt
        "None" (is_filled self A) (set_loc_size (Some (size_or_1x1 fr)) fr)
  | (Raise e, fr) => (Raise e, fr)
  end.
Proof. unfold try_block. now rewrite build_and_render_eq. Qed.



(** ** The fast path *)

Lemma image_eta (a : Image) :
  mkImage (name a) (channels a) (size a) (colorspace_settings_name a)
          (is_dirty a) (filepath_raw a) (file_format a) = a.
Proof. now destruct a. Qed.

Lemma resave_spec host image mt w :
  let r := resave host image (resolve_format mt) w in
  fst r = match image_save host image (image_for_save host mt w image) with
          | Some b => Ok b
          | None => Raise RuntimeError
          end /\
  (forall i, images (snd r) i = images w i) /\
  data_images (snd r) = data_images w /\
  rendered (snd r) = rendered w /\
  scenes (snd r) = scenes w.
Proof.
  unfold resave, save, try_finally, bind, get, modify, ret, raise, lift.
  cbn. rewrite Nat.eqb_refl. cbn. unfold image_for_save.
  change (set_file_format (resolve_format mt)
            (set_filepath_raw (mkdtemp host (fs w) ++ "/img")%string
               (images w image)))
    with (mkImage (name (images w image)) (channels (images w image))
            (size (images w image))
            (colorspace_settings_name (images w image))
            (is_dirty (images w image))
            (mkdtemp host (fs w) ++ "/img")%string (resolve_format mt)).
  destruct (image_save host image _) as [b|]; cbn;
    rewrite ?Nat.eqb_refl; cbn; rewrite ?read_after_write;
    (split; [reflexivity|]); (split; [|repeat split]);
    intros i; destruct (Nat.eqb_spec i image) as [->|Hne]; cbn;
    try reflexivity;
    unfold set_filepath_raw, set_file_format; cbn; apply image_eta.
Qed.

Lemma encode_from_image_eq host self mt image w :
  mime_type self = Some mt ->
  encode_from_image host self image w =
  if verbatim host mt w image
  then (read_file (fs w) (abspath host (filepath_raw (images w image))), w)
  else resave host image (resolve_format mt) w.
Proof.
  intros Hm. unfold encode_from_image, get_mime_type, verbatim. rewrite Hm.
  unfold bind, ret, get, lift. cbn beta iota.
  destruct (String.eqb (resolve_format mt) (file_format (images w image))
            && negb (is_dirty (images w image))); [|reflexivity].
  rewrite andb_true_l.
  destruct (isfile (fs w) (abspath host (filepath_raw (images w image))));
    reflexivity.
Qed.

Lemma encode_fast host self mt w image :
  on_happy_path w self = true ->
  happy_image self = Some image ->
  encode host self mt w =
  (mkExportImage (fills self) (Some mt),
   match encode_from_image host (mkExportImage (fills self) (Some mt)) image w
   with
   | (Ok b, w') => (Ok (Some b), w')
   | (Raise e, w') => (Raise e, w')
   end).
Proof.
  intros Hpath Himg. unfold encode.
  change (on_happy_path w (mkExportImage (fills self) (Some mt)))
    with (on_happy_path w self).
  rewrite Hpath. unfold encode_happy, happy_image in *. cbn [fills].
  destruct (values (fills self)) as [|[i c|] l]; try discriminate.
  inversion Himg; subst i. unfold bind, ret.
  destruct (encode_from_image host _ image w) as [[b|e] w']; reflexivity.
Qed.

Lemma happy_path_has_image w self :
  on_happy_path w self = true -> exists image, happy_image self = Some image.
Proof.
  intros H. apply on_happy_path_names in H. destruct H as (Hne & Hall & _).
  unfold happy_image, values.
  destruct (fills self) as [|[dst fill] d] eqn:E; [contradiction|].
  destruct (Hall dst fill) as (image & src & ->); [rewrite E; now left|].
  now exists image.
Qed.

Lemma fast_path_reuses_file_aux host self mt w image f :
  on_happy_path w self = true ->
  happy_image self = Some image ->
  file_format (images w image) = resolve_format mt ->
  is_dirty (images w image) = false ->
  fs w (abspath host (filepath_raw (images w image))) = Some f ->
  readable f = true ->
  encode_result host self mt w = Ok (Some (content f)) /\
  encode_world host self mt w = w.
Proof.
  intros Hpath Himg Hfmt Hdirty Hfile Hread.
  unfold encode_result, encode_world.
  rewrite (@encode_fast host self mt w image Hpath Himg).
  rewrite (@encode_from_image_eq host (mkExportImage (fills self) (Some mt)) mt
             image w eq_refl).
  unfold verbatim, isfile, read_file.
  rewrite Hfmt, String.eqb_refl, Hdirty, Hfile, Hread. cbn. auto.
Qed.



(** ** [from_blender_image] *)

Lemma dict_set_fresh_nat {V} (d : dict nat V) k v :
  ~ In k (keys d) -> dict_set Nat.eqb d k v = d ++ [(k, v)].
Proof.
  induction d as [|[k' v'] d IH]; simpl; intros H; [reflexivity|].
  destruct (Nat.eqb_spec k' k) as [->|Hne]; [exfalso; apply H; now left|].
  rewrite IH; [reflexivity|]. intros Hin. apply H. now right.
Qed.

Lemma fills_fill_image self image dst src :
  fills (fill_image self image dst src) =
  dict_set Nat.eqb (fills self) dst (FillImage image src).
Proof. reflexivity. Qed.

Lemma from_blender_image_fills w image :
  fills (from_blender_image w image) =
  map (fun chan => (chan, FillImage image chan))
      (seq 0 (channels (images w image))).
Proof.
  unfold from_blender_image.
  induction (channels (images w image)) as [|n IH]; [reflexivity|].
  rewrite seq_S, fold_left_app, map_app. cbn [fold_left map Nat.add].
  rewrite fills_fill_image.
  transitivity (dict_set Nat.eqb
                  (map (fun chan => (chan, FillImage image chan)) (seq 0 n))
                  n (FillImage image n));
    [f_equal; exact IH|].
  apply dict_set_fresh_nat.
  unfold keys. rewrite map_map. simpl. rewrite map_id, in_seq. lia.
Qed.

(** C8, amended. For an image with at least one channel, the spec
    [from_blender_image] builds is on the fast path with that image; and
    when the image is persisted in the target container, has no unsaved
    edits, and its file is there to be read, [encode] returns the bytes of
    the file and leaves the world as it was. *)
Theorem from_blender_image_fast_path host w image :
  0 < channels (images w image) ->
  on_happy_path w (from_blender_image w image) = true /\
  happy_image (from_blender_image w image) = Some image /\
  forall mt f,
    file_format (images w image) = resolve_format mt ->
    is_dirty (images w image) = false ->
    fs w (abspath host (filepath_raw (images w image))) = Some f ->
    readable f = true ->
    encode_result host (from_blender_image w image) mt w = Ok (Some (content f)) /\
    encode_world host (from_blender_image w image) mt w = w.
Proof.
  intros Hn.
  assert (Hpath : on_happy_path w (from_blender_image w image) = true).
  { apply on_happy_path_names.
    unfold every_fill_is_FillImage, every_dst_is_src, one_source_name.
    rewrite from_blender_image_fills.
    destruct (channels (images w image)) as [|n]; [lia|].
    split; [discriminate|]. repeat split.
    - intros dst fill Hin. apply in_map_iff in Hin.
      destruct Hin as [c [Heq _]]. inversion Heq. eauto.
    - intros dst i src Hin. apply in_map_iff in Hin.
      destruct Hin as [c [Heq _]]. inversion Heq. reflexivity.
    - intros d1 i1 s1 d2 i2 s2 H1 H2. apply in_map_iff in H1, H2.
      destruct H1 as [c1 [E1 _]], H2 as [c2 [E2 _]].
      inversion E1. inversion E2. congruence. }
  assert (Himg : happy_image (from_blender_image w image) = Some image).
  { unfold happy_image, values. rewrite from_blender_image_fills.
    destruct (channels (images w image)) as [|n]; [lia|]. reflexivity. }
  split; [exact Hpath|]. split; [exact Himg|].
  intros mt f. now apply fast_path_reuses_file_aux.
Qed.

(** ** The object after [encode] *)

(** C9, amended. [encode] stores the requested mime type in the attribute
    [mime_type] of the spec object, overwriting what was there; it leaves
    the fills as they were, and what a call returns and does to the world
    does not depend on the attribute an earlier call left. *)
Theorem encode_stores_mime_type host self mt w :
  mime_type (encode_self host self mt w) = Some mt /\
  fills (encode_self host self mt w) = fills self /\
  forall m0,
    snd (encode host (mkExportImage (fills self) m0) mt w) =
    snd (encode host self mt w).
Proof. repeat split. Qed.

(** ** The container of the bytes *)







(** * Instances and counterexamples *)

Section Instances.
Import Examples.

Ltac by_cases_on_fills H :=
  cbv in H;
  repeat match type of H with
         | _ \/ _ => destruct H as [H|H]
         | False => destruct H
         | (_, _) = (_, _) => inversion H; subst; clear H
         end.

Lemma world0_resolves self :
  (forall image, touched self image -> image < 3) ->
  refs_resolve world0 self.
Proof.
  intros H image Ht. specialize (H image Ht).
  destruct image as [|[|[|image]]]; [reflexivity..|lia].
Qed.

Lemma spec_A_resolves : refs_resolve world0 spec_A.
Proof.
  apply world0_resolves. intros image (dst & src & Hin).
  by_cases_on_fills Hin; lia.
Qed.






Lemma classifier_fast_path_witness :
  refs_resolve world0 spec_A /\
  (on_happy_path world0 spec_A = true <->
   fills spec_A <> [] /\ every_fill_is_FillImage spec_A /\
   every_dst_is_src spec_A /\ one_source_image spec_A).
Proof.
  split; [exact spec_A_resolves|].
  apply (@classifier_fast_path world0 spec_A). exact spec_A_resolves.
Defined.

(** C1 as the spec words it fails both ways: an empty spec meets the three
    conditions and is not on the fast path; two datablocks of one name are
    on the fast path and are two images. *)
Lemma classifier_counterexample :
  (on_happy_path world0 new_ExportImage = false /\
   every_fill_is_FillImage new_ExportImage /\
   every_dst_is_src new_ExportImage /\
   one_source_image new_ExportImage) /\
  (on_happy_path worldT spec_twins = true /\
   ~ one_source_image spec_twins).
Proof.
  split; [split; [reflexivity|]|split; [reflexivity|]].
  - split; [intros dst fill []|].
    split; [intros dst image src [] | intros d1 i1 s1 d2 i2 s2 []].
  - intros H. specialize (H R 0 R G 1 G). cbv in H.
    assert (E : 0 = 1) by (apply H; auto). discriminate.
Qed.










Lemma from_blender_image_fast_path_witness :
  0 < channels (images world0 0) /\
  on_happy_path world0 (from_blender_image world0 0) = true /\
  happy_image (from_blender_image world0 0) = Some 0 /\
  encode_result host0 (from_blender_image world0 0) None world0 =
    Ok (Some (list_byte_of_string "PNG")) /\
  encode_world host0 (from_blender_image world0 0) None world0 = world0.
Proof.
  split; [cbv; lia|].
  destruct (@from_blender_image_fast_path host0 world0 0) as (H1 & H2 & H3);
    [cbv; lia|].
  split; [exact H1|]. split; [exact H2|].
  apply (H3 None (mkFile true (list_byte_of_string "PNG"))); reflexivity.
Defined.

(** C8 as the spec words it fails for an image without channels (its
    pixels could not be loaded): the spec is empty, and not on the fast
    path. *)
Lemma from_blender_image_counterexample :
  channels (images world0 3) = 0 /\
  fills (from_blender_image world0 3) = [] /\
  on_happy_path world0 (from_blender_image world0 3) = false.
Proof. repeat split; reflexivity. Qed.

(** C9 as the spec words it fails: after a call the object holds the mime
    type, and is not the object it was. *)
Lemma mime_type_counterexample :
  mime_type new_ExportImage = None /\
  mime_type (encode_self host0 new_ExportImage (Some "image/jpeg") world0) =
    Some (Some "image/jpeg") /\
  encode_self host0 new_ExportImage (Some "image/jpeg") world0 <>
    new_ExportImage.
Proof. repeat split; try reflexivity. discriminate. Qed.

End Instances.

(** * Further properties of the module *)

(** ** The builder *)

Lemma dict_get_set_nat {V} (d : dict nat V) k v k' :
  dict_get Nat.eqb (dict_set Nat.eqb d k v) k' =
  if k' =? k then Some v else dict_get Nat.eqb d k'.
Proof.
  induction d as [|[k0 v0] d IH]; simpl.
  - rewrite (Nat.eqb_sym k k'). reflexivity.
  - destruct (Nat.eqb_spec k0 k) as [->|Hne]; simpl.
    + rewrite (Nat.eqb_sym k k'). destruct (k' =? k); reflexivity.
    + rewrite IH. destruct (Nat.eqb_spec k0 k') as [E|Hne'];
        [|reflexivity].
      destruct (Nat.eqb_spec k' k) as [E'|_]; [congruence | reflexivity].
Qed.

Lemma keys_dict_set_nat {V} (d : dict nat V) k v :
  keys (dict_set Nat.eqb d k v) =
  if dict_mem Nat.eqb d k then keys d else keys d ++ [k].
Proof.
  unfold dict_mem. induction d as [|[k0 v0] d IH]; simpl; [reflexivity|].
  destruct (Nat.eqb_spec k0 k) as [->|Hne]; simpl; [reflexivity|].
  rewrite IH. destruct (dict_get Nat.eqb d k); reflexivity.
Qed.

(** X1. After [fill_image] or [fill_white] on a channel, that channel holds
    the new fill, whatever it held before, and every other channel holds
    what it held. *)
Theorem fill_then_lookup self image dst src chan :
  dict_get Nat.eqb (fills (fill_image self image dst src)) chan =
    (if chan =? dst then Some (FillImage image src)
     else dict_get Nat.eqb (fills self) chan) /\
  dict_get Nat.eqb (fills (fill_white self dst)) chan =
    (if chan =? dst then Some FillWhite
     else dict_get Nat.eqb (fills self) chan) /\
  is_filled (fill_image self image dst src) chan =
    ((chan =? dst) || is_filled self chan) /\
  is_filled (fill_white self dst) chan =
    ((chan =? dst) || is_filled self chan).
Proof.
  unfold is_filled, dict_mem, fill_image, fill_white. cbn [fills].
  rewrite !dict_get_set_nat.
  destruct (chan =? dst); repeat split; reflexivity.
Qed.

(** X2. Filling a channel that has a fill replaces it in place, and filling
    a channel that has none appends it: the order of the channels of
    [self.fills], which decides the image of the fast path and the size of
    the composite, is the order in which they were first filled. *)
Theorem fill_keeps_order self image dst src :
  keys (fills (fill_image self image dst src)) =
    (if is_filled self dst then keys (fills self)
     else keys (fills self) ++ [dst]) /\
  keys (fills (fill_white self dst)) =
    (if is_filled self dst then keys (fills self)
     else keys (fills self) ++ [dst]).
Proof.
  unfold is_filled, fill_image, fill_white. cbn [fills].
  rewrite !keys_dict_set_nat. split; reflexivity.
Qed.

(** X3. [from_blender_image] fills channel [c] from channel [c] of the image
    for every [c] below [image.channels], in increasing order, and fills no
    other channel. *)
Theorem from_blender_image_channels w image :
  fills (from_blender_image w image) =
    map (fun chan => (chan, FillImage image chan))
        (seq 0 (channels (images w image))) /\
  forall chan,
    is_filled (from_blender_image w image) chan =
    (chan <? channels (images w image)).
Proof.
  split; [apply from_blender_image_fills|].
  intros chan. unfold is_filled.
  destruct (chan <? channels (images w image)) eqn:E.
  - apply dict_mem_nat_keys. rewrite from_blender_image_fills.
    unfold keys. rewrite map_map. simpl. rewrite map_id, in_seq.
    apply Nat.ltb_lt in E. lia.
  - destruct (dict_mem Nat.eqb (fills (from_blender_image w image)) chan) eqn:M;
      [|reflexivity].
    apply dict_mem_nat_keys in M. rewrite from_blender_image_fills in M.
    unfold keys in M. rewrite map_map in M. simpl in M.
    rewrite map_id, in_seq in M. apply Nat.ltb_ge in E. lia.
Qed.

(** ** The classifier *)

(** X4. A spec with a [FillWhite] is never on the fast path. *)
Theorem white_fill_is_composite w self dst :
  In (dst, FillWhite) (fills self) -> on_happy_path w self = false.
Proof.
  intros Hin. destruct (on_happy_path w self) eqn:E; [|reflexivity].
  apply on_happy_path_names in E. destruct E as (_ & Hall & _).
  destruct (Hall _ _ Hin) as (image & src & Heq). discriminate.
Qed.

(** X5. A spec that fills a channel from another channel is never on the
    fast path, be it from a single image. *)
Theorem swizzle_is_composite w self dst image src :
  In (dst, FillImage image src) (fills self) -> dst <> src ->
  on_happy_path w self = false.
Proof.
  intros Hin Hne. destruct (on_happy_path w self) eqn:E; [|reflexivity].
  apply on_happy_path_names in E. destruct E as (_ & _ & Hsrc & _).
  exfalso. apply Hne. eapply Hsrc, Hin.
Qed.

(** ** The fast path *)


(** ** What [encode] leaves behind *)

Lemma prefix_app_same d s t : String.prefix (d ++ s) (d ++ t) = String.prefix s t.
Proof.
  induction d as [|a d IH]; simpl; [reflexivity|].
  destruct (Ascii.ascii_dec a a) as [_|N]; [exact IH | contradiction].
Qed.

Lemma tmpfile_in_tmpdir d : String.prefix (d ++ "/") (d ++ "/img") = true.
Proof. rewrite prefix_app_same. reflexivity. Qed.

Lemma fs_after_tmp_write f d b p :
  fs_rmtree (fs_write f (d ++ "/img") b) d p = f p \/
  (String.prefix (d ++ "/") p = true /\
   fs_rmtree (fs_write f (d ++ "/img") b) d p = None).
Proof.
  unfold fs_rmtree, fs_write.
  destruct (String.prefix (d ++ "/") p) eqn:E; [right; auto|left].
  destruct (String.eqb_spec p (d ++ "/img")) as [->|_]; [|reflexivity].
  rewrite tmpfile_in_tmpdir in E. discriminate.
Qed.

Lemma fs_after_tmp f d p :
  fs_rmtree f d p = f p \/
  (String.prefix (d ++ "/") p = true /\ fs_rmtree f d p = None).
Proof.
  unfold fs_rmtree. destruct (String.prefix (d ++ "/") p); auto.
Qed.

Lemma resave_fs host image mt w :
  fs (snd (resave host image (resolve_format mt) w)) =
  match image_save host image (image_for_save host mt w image) with
  | Some b =>
      fs_rmtree (fs_write (fs w) (mkdtemp host (fs w) ++ "/img") b)
                (mkdtemp host (fs w))
  | None => fs_rmtree (fs w) (mkdtemp host (fs w))
  end.
Proof.
  unfold resave, save, try_finally, bind, get, modify, ret, raise, lift.
  cbn. rewrite Nat.eqb_refl. cbn. unfold image_for_save.
  change (set_file_format (resolve_format mt)
            (set_filepath_raw (mkdtemp host (fs w) ++ "/img")%string
               (images w image)))
    with (mkImage (name (images w image)) (channels (images w image))
            (size (images w image))
            (colorspace_settings_name (images w image))
            (is_dirty (images w image))
            (mkdtemp host (fs w) ++ "/img")%string (resolve_format mt)).
  destruct (image_save host image _) as [b|]; cbn;
    rewrite ?Nat.eqb_refl; cbn; rewrite ?read_after_write; reflexivity.
Qed.

Lemma restore_loop_keeps l fr :
  let fr' := snd (for_each l restore_colorspace fr) in
  fs (world fr') = fs (world fr) /\
  scenes (world fr') = scenes (world fr).
Proof.
  apply for_each_invariant
    with (I := fun f => fs (world f) = fs (world fr) /\
                        scenes (world f) = scenes (world fr));
    [|split; reflexivity].
  intros x s _ Hs. unfold restore_colorspace, bind, get, modify, raise.
  cbn beta iota. destruct (images_by_name (world s) (fst x)); exact Hs.
Qed.

Lemma cleanup_keeps_fs fr : fs (world (snd (cleanup fr))) = fs (world fr).
Proof.
  unfold cleanup, scenes_remove, bind, get, modify, ret.
  destruct (tmp_scene fr); cbn beta iota;
    match goal with
    | |- context [for_each ?l restore_colorspace ?f] =>
        destruct (restore_loop_keeps l f) as [H _]; rewrite H
    end; reflexivity.
Qed.

Lemma cleanup_scenes fr s :
  tmp_scene fr = Some s ->
  scenes (world (snd (cleanup fr))) =
  filter (fun id => negb (id =? scene_id s)) (scenes (world fr)).
Proof.
  intros Hs. unfold cleanup, scenes_remove, bind, get, modify, ret.
  rewrite Hs. cbn beta iota.
  match goal with
  | |- context [for_each ?l restore_colorspace ?f] =>
      destruct (restore_loop_keeps l f) as [_ H]; rewrite H
  end. reflexivity.
Qed.

Lemma finish_world {X} (r : Result X) fr :
  snd (finish r fr) = world (snd (cleanup fr)).
Proof. unfold finish. destruct (cleanup fr) as [[[]|e] fr']; reflexivity. Qed.

(** The frame the [finally] block finds, against the world of the call. *)
Lemma try_block_fs host self mt w p :
  fs (world (snd (try_block host self mt w))) p = fs w p \/
  (String.prefix (mkdtemp host (fs w) ++ "/") p = true /\
   fs (world (snd (try_block host self mt w))) p = None).
Proof.
  rewrite try_block_eq.
  pose proof (loop_steady host self w) as Hst.
  destruct (for_each (items (fills self)) (route_fill 1) (prelude_frame host w))
    as [[[]|e] fr2]; simpl in Hst; destruct Hst as [[s [Hs _]] _ _ Hfs _].
  - destruct fr2 as [ts orig sz w2]; simpl in Hs, Hfs; subst ts.
    unfold set_loc_size; cbn [tmp_scene orig_colorspaces loc_size world].
    rewrite render_tmp_scene_eq. cbv zeta.
    destruct (render_engine host _ _); cbn [fst snd world set_fs fs];
      cbn [filepath configured set_use_file_extension set_filepath];
      rewrite Hfs; [apply fs_after_tmp_write | apply fs_after_tmp].
  - left. simpl. now rewrite Hfs.
Qed.

(** X7. Whatever [encode] returns or raises, on either path, every file is
    afterwards as it was, apart from the temporary directory, in which
    nothing is left. *)
Theorem encode_leaves_files host self mt w p :
  fs (encode_world host self mt w) p = fs w p \/
  (String.prefix (mkdtemp host (fs w) ++ "/") p = true /\
   fs (encode_world host self mt w) p = None).
Proof.
  destruct (on_happy_path w self) eqn:Hpath.
  - destruct (happy_path_has_image w self Hpath) as [image Himg].
    unfold encode_world.
    rewrite (@encode_fast host self mt w image Hpath Himg).
    rewrite (@encode_from_image_eq host (mkExportImage (fills self) (Some mt))
               mt image w eq_refl).
    destruct (verbatim host mt w image).
    + left. destruct (read_file _ _); reflexivity.
    + pose proof (resave_fs host image mt w) as Hfs.
      destruct (resave host image (resolve_format mt) w) as [[b|e] w'];
        cbn [fst snd] in *; rewrite Hfs;
        destruct (image_save host image _);
        first [apply fs_after_tmp_write | apply fs_after_tmp].
  - destruct (@encode_composite_outcome host self mt w Hpath) as [_ ->].
    rewrite finish_world, cleanup_keeps_fs. apply try_block_fs.
Qed.

Lemma list_max_fresh (l : list nat) :
  filter (fun id => negb (id =? S (list_max l))) l = l.
Proof.
  assert (H : forall m, list_max l <= m ->
            filter (fun id => negb (id =? S m)) l = l).
  { induction l as [|a l IH]; intros m Hm; [reflexivity|].
    simpl in Hm. simpl.
    destruct (Nat.eqb_spec a (S m)) as [E|_]; [lia|].
    simpl. rewrite IH; [reflexivity | lia]. }
  now apply H.
Qed.

Lemma holds_tmp_scene_step w comb item fr :
  holds_tmp_scene w fr -> holds_tmp_scene w (snd (route_fill comb item fr)).
Proof.
  intros [[s [Hs Hid]] Hsc].
  destruct item as [dst [image src|]]; [|split; eauto].
  destruct fr as [ts orig sz w2]; simpl in Hs, Hsc; subst ts.
  rewrite route_fill_FillImage.
  destruct ((dst <? 4) && (src <? 4)).
  - destruct sz as [z|]; [destruct (same_size z (size (images w2 image)))|];
      simpl; split; simpl; eauto.
  - simpl; split; simpl; eauto.
Qed.

Lemma try_block_scene host self mt w :
  holds_tmp_scene w (snd (try_block host self mt w)).
Proof.
  rewrite try_block_eq.
  assert (Hl : holds_tmp_scene w
            (snd (for_each (items (fills self)) (route_fill 1)
                    (prelude_frame host w)))).
  { apply for_each_invariant with (I := holds_tmp_scene w).
    - intros x s _. apply holds_tmp_scene_step.
    - split; simpl; eauto. }
  destruct (for_each (items (fills self)) (route_fill 1) (prelude_frame host w))
    as [[[]|e] fr2]; simpl in Hl; [|exact Hl].
  destruct Hl as [[s [Hs Hid]] Hsc].
  destruct fr2 as [ts orig sz w2]; simpl in Hs, Hsc; subst ts.
  unfold set_loc_size; cbn [tmp_scene orig_colorspaces loc_size world].
  rewrite render_tmp_scene_eq. cbv zeta.
  destruct (render_engine host _ _); split; simpl; eauto;
    eexists; split; try reflexivity; unfold configured; simpl;
    destruct (truthy mt); exact Hid.
Qed.

(** X8. Whatever [encode] returns or raises, on either path, the scenes of
    [bpy.data.scenes] are afterwards the ones there were: the temporary
    scene of the composite path is removed. *)
Theorem encode_leaves_scenes host self mt w :
  scenes (encode_world host self mt w) = scenes w.
Proof.
  destruct (on_happy_path w self) eqn:Hpath.
  - destruct (happy_path_has_image w self Hpath) as [image Himg].
    unfold encode_world.
    rewrite (@encode_fast host self mt w image Hpath Himg).
    rewrite (@encode_from_image_eq host (mkExportImage (fills self) (Some mt))
               mt image w eq_refl).
    destruct (verbatim host mt w image).
    + destruct (read_file _ _); reflexivity.
    + destruct (resave_spec host image mt w) as (_ & _ & _ & _ & Hsc).
      destruct (resave host image (resolve_format mt) w) as [[b|e] w'];
        exact Hsc.
  - destruct (@encode_composite_outcome host self mt w Hpath) as [_ ->].
    rewrite finish_world.
    destruct (try_block_scene host self mt w) as [[s [Hs Hid]] Hsc].
    rewrite (cleanup_scenes _ Hs), Hsc, Hid. simpl.
    rewrite Nat.eqb_refl. simpl. apply list_max_fresh.
Qed.





(** ** The loop of the composite path, when it does not raise *)

Lemma non_color_keeps l : forall w,
  fs (non_color l w) = fs w /\ rendered (non_color l w) = rendered w /\
  scenes (non_color l w) = scenes w /\
  data_images (non_color l w) = data_images w /\
  forall i, same_but_colorspace (images (non_color l w) i) (images w i).
Proof.
  induction l as [|[d [image c|]] l IH]; intros w; simpl.
  - repeat split.
  - destruct (IH (upd_image w image (set_colorspace "Non-Color")))
      as (H1 & H2 & H3 & H4 & H5).
    repeat split; try assumption; try apply (H5 i).
    all: specialize (H5 i); simpl in H5;
      destruct (i =? image); simpl in H5; apply H5.
  - apply IH.
Qed.

Lemma non_color_size l w i :
  size (images (non_color l w) i) = size (images w i).
Proof. destruct (non_color_keeps l w) as (_ & _ & _ & _ & H). apply H. Qed.

Lemma loop_ok_inv comb (l : list (Channel * Fill)) :
  forall s orig sz w fr',
    for_each l (route_fill comb) (mkFrame (Some s) orig sz w) = (Ok tt, fr') ->
    exists orig',
      fr' = mkFrame (Some (routed comb l s)) orig'
              (match sz with
               | Some z => Some z
               | None =>
                   match first_source l with
                   | Some image => Some (size (images w image))
                   | None => None
                   end
               end)
              (non_color l w).
Proof.
  induction l as [|[d [image c|]] l IH]; intros s orig sz w fr' H.
  - inversion H. exists orig. now destruct sz.
  - rewrite for_each_cons, route_fill_FillImage in H.
    destruct ((d <? 4) && (c <? 4)); [|discriminate].
    cbv zeta in H. destruct sz as [z|].
    + destruct (same_size z (size (images w image))); [|discriminate].
      apply IH in H. destruct H as [orig' ->]. now exists orig'.
    + apply IH in H. destruct H as [orig' ->]. now exists orig'.
  - rewrite for_each_cons, route_fill_FillWhite in H.
    apply IH in H. exact H.
Qed.


Lemma non_color_images l : forall w1 w2,
  images w1 = images w2 -> images (non_color l w1) = images (non_color l w2).
Proof.
  induction l as [|[d [image c|]] l IH]; intros w1 w2 H; simpl.
  - exact H.
  - apply IH. simpl. now rewrite H.
  - now apply IH.
Qed.

Lemma composite_try_block host self mt w :
  fst (for_each (items (fills self)) (route_fill 1) (prelude_frame host w))
    = Ok tt ->
  fst (try_block host self mt w) =
    match render_engine host (images (non_color (items (fills self)) w))
            (composite_scene host self mt w) with
    | Some b => Ok b
    | None => Raise RuntimeError
    end /\
  rendered (world (snd (try_block host self mt w))) =
    composite_scene host self mt w :: rendered w.
Proof.
  intros Hok. rewrite try_block_eq.
  destruct (for_each (items (fills self)) (route_fill 1) (prelude_frame host w))
    as [[[]|e] fr2] eqn:E; [|discriminate].
  unfold prelude_frame in E. apply loop_ok_inv in E. destruct E as [orig' ->].
  unfold set_loc_size, size_or_1x1.
  cbn [tmp_scene orig_colorspaces loc_size world].
  rewrite render_tmp_scene_eq. cbv zeta.
  set (wp := set_scenes w (S (list_max (scenes w)) :: scenes w)).
  destruct (non_color_keeps (items (fills self)) wp) as (Hfs & Hr & _).
  rewrite Hfs.
  rewrite (non_color_images (items (fills self)) wp w eq_refl).
  assert (Es : configured host (fs wp)
                 (routed 1 (items (fills self)) (prelude_scene host w))
                 (fst match first_source (items (fills self)) with
                      | Some image => size (images wp image)
                      | None => (1, 1)
                      end)
                 (snd match first_source (items (fills self)) with
                      | Some image => size (images wp image)
                      | None => (1, 1)
                      end) mt (is_filled self A)
               = composite_scene host self mt w) by reflexivity.
  destruct (first_source (items (fills self))) as [i0|] eqn:Ef;
    cbn [fst snd] in *; rewrite Es;
    destruct (render_engine host _ (composite_scene host self mt w));
    cbn [fst snd world rendered set_fs log_render]; rewrite Hr; split;
    reflexivity.
Qed.








(** ** The scene that is rendered *)

Lemma cons_neq {X} (x : X) (l : list X) : x :: l <> l.
Proof.
  intros H. apply (f_equal (@length X)) in H. simpl in H. lia.
Qed.

Lemma rendered_scene host self mt w s :
  on_happy_path w self = false ->
  rendered (encode_world host self mt w) = s :: rendered w ->
  s = composite_scene host self mt w.
Proof.
  intros Hpath Hlog.
  destruct (@encode_composite_outcome host self mt w Hpath) as [_ E].
  rewrite E, finish_rendered in Hlog. clear E.
  destruct (fst (for_each (items (fills self)) (route_fill 1)
                   (prelude_frame host w))) as [[]|e] eqn:Hloop.
  - destruct (composite_try_block host self mt w Hloop) as [_ Hr].
    rewrite Hr in Hlog. now inversion Hlog.
  - exfalso. rewrite try_block_eq in Hlog.
    pose proof (loop_steady host self w) as Hst.
    destruct (for_each (items (fills self)) (route_fill 1)
                (prelude_frame host w)) as [r fr2].
    simpl in Hloop, Hst. subst r. simpl in Hlog.
    destruct Hst as [_ _ _ _ Hr]. rewrite Hr in Hlog.
    symmetry in Hlog. exact (cons_neq Hlog).
Qed.

Lemma composite_scene_tree host self mt w :
  nodes (composite_scene host self mt w) =
    nodes (routed 1 (items (fills self)) (prelude_scene host w)) /\
  links (composite_scene host self mt w) =
    links (routed 1 (items (fills self)) (prelude_scene host w)).
Proof.
  unfold composite_scene, configured. destruct (truthy mt); split; reflexivity.
Qed.

Lemma routed_grows comb l : forall s,
  exists ns ls,
    nodes (routed comb l s) = nodes s ++ ns /\
    links (routed comb l s) = links s ++ ls.
Proof.
  induction l as [|[d [image c|]] l IH]; intros s; simpl.
  - exists [], []. now rewrite !app_nil_r.
  - destruct (IH (scene_with_route comb s d image c)) as (ns & ls & Hn & Hl).
    simpl in Hn, Hl. rewrite Hn, Hl.
    eexists. eexists. rewrite <- !app_assoc. split; reflexivity.
  - apply IH.
Qed.

Lemma wired_grows comb s s' d i c :
  (exists ns ls, nodes s' = nodes s ++ ns /\ links s' = links s ++ ls) ->
  wired comb s d i c -> wired comb s' d i c.
Proof.
  intros (ns & ls & Hn & Hl) (a & b & Ha & Hb & H1 & H2).
  exists a, b. rewrite Hn, Hl.
  repeat split; try (apply in_or_app; now left).
  - rewrite nth_error_app1; [exact Ha|]. apply nth_error_Some. congruence.
  - rewrite nth_error_app1; [exact Hb|]. apply nth_error_Some. congruence.
Qed.

Lemma routed_wired comb l : forall s d i c,
  In (d, FillImage i c) l -> wired comb (routed comb l s) d i c.
Proof.
  induction l as [|[d0 [image c0|]] l IH]; intros s d i c Hin; simpl.
  - destruct Hin.
  - destruct Hin as [E|Hin]; [|now apply IH].
    inversion E; subst. eapply wired_grows; [apply routed_grows|].
    exists (length (nodes s)), (S (length (nodes s))).
    unfold scene_with_route. cbn [nodes links set_node_tree].
    split; [|split; [|split]].
    + rewrite nth_error_app2 by lia. now rewrite Nat.sub_diag.
    + rewrite nth_error_app2 by lia.
      replace (S (length (nodes s)) - length (nodes s)) with 1 by lia.
      reflexivity.
    + apply in_or_app. right. now left.
    + apply in_or_app. right. apply in_or_app. right. now left.
  - destruct Hin as [E|Hin]; [discriminate | now apply IH].
Qed.

Lemma routed_links comb l : forall s lk,
  comb < length (nodes s) ->
  In lk (links (routed comb l s)) ->
  In lk (links s) \/
  to_node lk <> comb \/
  exists d i c, In (d, FillImage i c) l /\
    to_socket lk = SocketIndex d /\ from_socket lk = SocketIndex c.
Proof.
  induction l as [|[d0 [image c0|]] l IH]; intros s lk Hc Hin; simpl in Hin.
  - now left.
  - apply IH in Hin; [|simpl; rewrite length_app; lia].
    destruct Hin as [Hin|[Hne|(d & i & c & H1 & H2 & H3)]].
    + simpl in Hin. apply in_app_or in Hin.
      destruct Hin as [Hin|[E|[E|[]]]]; [now left| |]; subst lk; simpl.
      * right. left. lia.
      * right. right. exists d0, image, c0. repeat split. now left.
    + right. now left.
    + right. right. exists d, i, c. repeat split; try assumption. now right.
  - apply IH in Hin; [|exact Hc].
    destruct Hin as [Hin|[Hne|(d & i & c & H1 & H2 & H3)]]; auto.
    right. right. exists d, i, c. repeat split; try assumption. now right.
Qed.

(** X11. The scene the composite path renders has the Composite node fed by
    a Combine RGBA node whose four inputs default to 1.0; for every
    [FillImage] of the spec, the source channel of the image is wired into
    the destination input of that node; and that node has no other input
    linked, so that a channel with a [FillWhite] or with no fill stays at
    1.0. *)
Theorem routing_graph host self mt w s :
  on_happy_path w self = false ->
  rendered (encode_world host self mt w) = s :: rendered w ->
  nth_error (nodes s) 0 = Some CompositorNodeComposite /\
  nth_error (nodes s) 1 =
    Some (CompositorNodeCombRGBA [1%Q; 1%Q; 1%Q; 1%Q]) /\
  In (mkLink 0 SocketImage 1 SocketImage) (links s) /\
  (forall d i c, In (d, FillImage i c) (fills self) -> wired 1 s d i c) /\
  (forall lk, In lk (links s) -> to_node lk = 1 ->
     exists d i c, In (d, FillImage i c) (fills self) /\
       to_socket lk = SocketIndex d /\ from_socket lk = SocketIndex c).
Proof.
  intros Hpath Hlog. rewrite (rendered_scene host self mt w Hpath Hlog).
  destruct (composite_scene_tree host self mt w) as [Hn Hl].
  destruct (routed_grows 1 (items (fills self)) (prelude_scene host w))
    as (ns & ls & Hn' & Hl').
  split; [rewrite Hn, Hn'; reflexivity|].
  split; [rewrite Hn, Hn'; reflexivity|].
  split; [rewrite Hl, Hl'; now left|].
  split.
  - intros d i c Hin.
    pose proof (routed_wired 1 (items (fills self)) (prelude_scene host w)
                  d i c Hin) as (a & b & H1 & H2 & H3 & H4).
    exists a, b. rewrite Hn, Hl. auto.
  - intros lk Hin Hto. rewrite Hl in Hin.
    apply routed_links in Hin; [|simpl; lia].
    destruct Hin as [[E|[]]|[Hne|H]]; [subst lk; discriminate | | exact H].
    contradiction.
Qed.


(** X13. The composite path renders with the display device None, without
    dithering, with every [use_stamp_] attribute off, to the file [img] of
    the temporary directory taken as it is named; and in the container of
    the mime type when that is a non-empty string, otherwise in the
    container the fresh scene has. *)
Theorem composite_render_settings host self mt w s :
  on_happy_path w self = false ->
  rendered (encode_world host self mt w) = s :: rendered w ->
  display_device s = "None" /\
  dither_intensity s = 0%Q /\
  (forall a, In a (use_stamp s) -> snd a = false) /\
  map fst (use_stamp s) = map fst (use_stamp (new_scene host)) /\
  filepath s = (mkdtemp host (fs w) ++ "/img")%string /\
  use_file_extension s = false /\
  use_nodes s = true /\
  render_file_format s =
    (if truthy mt then resolve_format mt
     else render_file_format (new_scene host)).
Proof.
  intros Hpath Hlog. rewrite (rendered_scene host self mt w Hpath Hlog).
  assert (Hrouted : forall l s0,
            use_stamp (routed 1 l s0) = use_stamp s0 /\
            use_nodes (routed 1 l s0) = use_nodes s0 /\
            render_file_format (routed 1 l s0) = render_file_format s0).
  { induction l as [|[d [image c|]] l IH]; intros s0; simpl; [auto| |apply IH].
    destruct (IH (scene_with_route 1 s0 d image c)) as (H1 & H2 & H3).
    auto. }
  destruct (Hrouted (items (fills self)) (prelude_scene host w))
    as (Hst & Hun & Hf).
  unfold composite_scene, configured.
  destruct (truthy mt); cbn; rewrite ?Hst, ?Hun, ?Hf; cbn;
    repeat split; try reflexivity;
    try (intros a Ha; apply in_map_iff in Ha;
         destruct Ha as [x [<- _]]; reflexivity);
    rewrite map_map; reflexivity.
Qed.

(** ** Channels out of range *)



(** ** The fast path renders nothing *)

(** X15. On the fast path [encode] requests no render, whatever it returns
    or raises. *)
Theorem fast_path_renders_nothing host self mt w :
  on_happy_path w self = true ->
  rendered (encode_world host self mt w) = rendered w.
Proof.
  intros Hpath.
  destruct (happy_path_has_image w self Hpath) as [image Himg].
  unfold encode_world.
  rewrite (@encode_fast host self mt w image Hpath Himg).
  rewrite (@encode_from_image_eq host (mkExportImage (fills self) (Some mt))
             mt image w eq_refl).
  destruct (verbatim host mt w image).
  - destruct (read_file _ _); reflexivity.
  - destruct (resave_spec host image mt w) as (_ & _ & _ & Hr & _).
    destruct (resave host image (resolve_format mt) w) as [[b|e] w'];
      exact Hr.
Qed.

(** ** Instances *)

Section MoreInstances.
Import Examples.






Lemma white_fill_is_composite_witness :
  In (A, FillWhite) (fills spec_AC) /\ on_happy_path world0 spec_AC = false.
Proof.
  split; [cbv; auto|].
  apply (@white_fill_is_composite world0 spec_AC A). cbv. auto.
Defined.

Lemma swizzle_is_composite_witness :
  In (R, FillImage 0 B) (fills spec_AC) /\ R <> B /\
  on_happy_path world0 spec_AC = false.
Proof.
  split; [cbv; auto|]. split; [discriminate|].
  apply (@swizzle_is_composite world0 spec_AC R 0 B);
    [cbv; auto | discriminate].
Defined.




Lemma routing_graph_witness :
  on_happy_path world0 spec_AC = false /\
  rendered (encode_world host0 spec_AC None world0) =
    composite_scene host0 spec_AC None world0 :: rendered world0 /\
  wired 1 (composite_scene host0 spec_AC None world0) R 0 B /\
  wired 1 (composite_scene host0 spec_AC None world0) G 2 G.
Proof.
  assert (Hpath : on_happy_path world0 spec_AC = false)
    by (vm_compute; reflexivity).
  assert (Hlog : rendered (encode_world host0 spec_AC None world0) =
                 composite_scene host0 spec_AC None world0 :: rendered world0)
    by (vm_compute; reflexivity).
  split; [exact Hpath|]. split; [exact Hlog|].
  destruct (@routing_graph host0 spec_AC None world0
              (composite_scene host0 spec_AC None world0)
              Hpath Hlog) as (_ & _ & _ & Hw & _).
  split; apply Hw; cbv; auto.
Defined.


Lemma composite_render_settings_witness :
  on_happy_path world0 spec_AC = false /\
  rendered (encode_world host0 spec_AC None world0) =
    composite_scene host0 spec_AC None world0 :: rendered world0 /\
  display_device (composite_scene host0 spec_AC None world0) = "None" /\
  render_file_format (composite_scene host0 spec_AC None world0) =
    render_file_format (new_scene host0).
Proof.
  assert (Hpath : on_happy_path world0 spec_AC = false)
    by (vm_compute; reflexivity).
  assert (Hlog : rendered (encode_world host0 spec_AC None world0) =
                 composite_scene host0 spec_AC None world0 :: rendered world0)
    by (vm_compute; reflexivity).
  split; [exact Hpath|]. split; [exact Hlog|].
  destruct (@composite_render_settings host0 spec_AC None world0
              (composite_scene host0 spec_AC None world0)
              Hpath Hlog) as (H1 & _ & _ & _ & _ & _ & _ & H8).
  split; [exact H1 | exact H8].
Defined.


Lemma fast_path_renders_nothing_witness :
  on_happy_path world0 spec_A = true /\
  rendered (encode_world host0 spec_A (Some "image/jpeg") world0) =
    rendered world0.
Proof.
  split; [reflexivity|].
  apply (@fast_path_renders_nothing host0 spec_A (Some "image/jpeg") world0).
  reflexivity.
Defined.

End MoreInstances.
